(** * Speaker aggregation, prompt selection and request validation
      of the WhisperX transcribe-and-summarise pipeline

    A shallow embedding of

    - [app/utils/formatting.py] (the same two functions are in [TM.py]),
    - the aggregation pass of [TranscribeSummaryPipeline.process] and the
      speaker table of [print_results] ([app/services/pipeline.py], [TM.py]),
    - [MEETING_TYPES], [get_meeting_type_prompt] and
      [summarize_with_diarization] ([SummaryModel.py], whose text
      [app/services/summarizer.py] repeats),
    - the validation prologue of the [/api/transcribe-summarize] endpoint
      ([api.py]),
    - the documents [export_transcript_to_docx] and
      [export_summary_to_docx] put together ([app/utils/export.py]): a
      document is the list of the headings, paragraphs and tables added
      to it, a paragraph the list of its runs.

    Conventions of the embedding.

    - A Python [str] is a list of Unicode code points ([N]); literals are
      written as UTF-8 string literals and decoded by [u].
    - A Python [float] is finite and held as the rational number it
      stands for ([Q]); infinities and NaN are not modelled.  Floor
      division, remainder and product, as [format_time] and the speaker
      lines use them, round as binary64 arithmetic does ([round64]);
      the sums and differences of durations and the percentages are
      exact.
    - [int(s)] is the one of CPython 3.11, with its limit of 4300
      digits and the decimal digits of Unicode 14.
    - A Python [dict] is an association list in insertion order, with
      unique keys.
    - A computation that may raise is a value of [result]: [Ok v] or
      [Raise e]. *)

From Stdlib Require Import String Ascii ZArith NArith QArith Qround Qpower.
From Stdlib Require Import Qabs Bool.
From Stdlib Require Import Lia Lqa DecimalN Permutation Sorted Morphisms List.
Import ListNotations.

Set Implicit Arguments.

(* ================================================================= *)
(** ** The Python run time used by the sources                        *)
(* ================================================================= *)

Module Py.

(** *** Exceptions and the error monad *)

Definition char := N.
Definition str := list char.

(** [KeyError] carries the [repr] of the missing key and [IndexError]
    its message: [str(e)] returns them. *)
Inductive exn : Type :=
| ValueError
| KeyError (key_repr : str)
| IndexError (msg : str)
| TypeError
| ZeroDivisionError
| OSError.

Inductive result (A : Type) : Type :=
| Ok (a : A)
| Raise (e : exn).
Arguments Ok {A} a.
Arguments Raise {A} e.

Definition bind {A B : Type} (m : result A) (k : A -> result B) : result B :=
  match m with
  | Ok a => k a
  | Raise e => Raise e
  end.

Declare Scope py_scope.
Delimit Scope py_scope with py.
Notation "x <- m ;; k" := (bind m (fun x => k))
  (at level 61, m at next level, right associativity) : py_scope.

(** *** Strings *)

(** UTF-8 decoding of a literal (well-formed input only: literals of
    this file). *)
Fixpoint utf8_decode (bs : list N) : str :=
  match bs with
  | [] => []
  | b0 :: r0 =>
    if (b0 <? 128)%N then b0 :: utf8_decode r0
    else if (b0 <? 224)%N then
      match r0 with
      | b1 :: r1 => ((b0 - 192) * 64 + (b1 - 128))%N :: utf8_decode r1
      | _ => []
      end
    else if (b0 <? 240)%N then
      match r0 with
      | b1 :: b2 :: r2 =>
          ((b0 - 224) * 4096 + (b1 - 128) * 64 + (b2 - 128))%N
            :: utf8_decode r2
      | _ => []
      end
    else
      match r0 with
      | b1 :: b2 :: b3 :: r3 =>
          ((b0 - 240) * 262144 + (b1 - 128) * 4096
           + (b2 - 128) * 64 + (b3 - 128))%N :: utf8_decode r3
      | _ => []
      end
  end.

Definition u (s : string) : str :=
  utf8_decode (map N_of_ascii (list_ascii_of_string s)).

Definition str_eqb (a b : str) : bool :=
  if list_eq_dec N.eq_dec a b then true else false.

(** [str.isspace] on one code point: the characters Python treats as
    white space in [str.strip()], [str.split()] and [int()]. *)
Definition isspace (c : char) : bool :=
  ((9 <=? c) && (c <=? 13) || (28 <=? c) && (c <=? 32)
   || (c =? 133) || (c =? 160) || (c =? 5760)
   || (8192 <=? c) && (c <=? 8202)
   || (c =? 8232) || (c =? 8233) || (c =? 8239) || (c =? 8287)
   || (c =? 12288))%N.

Fixpoint lstrip (s : str) : str :=
  match s with
  | [] => []
  | c :: r => if isspace c then lstrip r else s
  end.

Definition rstrip (s : str) : str := rev (lstrip (rev s)).

(** [s.strip()] *)
Definition strip (s : str) : str := rstrip (lstrip s).

(** [s.split()]: the maximal runs of characters that are not white
    space. *)
Fixpoint split (s : str) : list str :=
  match s with
  | [] => []
  | x :: r =>
    if isspace x then split r
    else
      match r with
      | [] => [[x]]
      | y :: _ =>
        if isspace y then [x] :: split r
        else
          match split r with
          | p :: ps => (x :: p) :: ps
          | [] => [[x]]
          end
      end
  end.

(** [s.split(c)] for a separator of one character. *)
Fixpoint split_on (c : char) (s : str) : list str :=
  match s with
  | [] => [[]]
  | x :: r =>
    if (x =? c)%N then [] :: split_on c r
    else
      match split_on c r with
      | p :: ps => (x :: p) :: ps
      | [] => [[x]]
      end
  end.

(** [s.startswith(p)] *)
Fixpoint startswith (p s : str) : bool :=
  match p, s with
  | [], _ => true
  | _ :: _, [] => false
  | a :: p', b :: s' => (a =? b)%N && startswith p' s'
  end.

(** The line feed, ["\n"] in the sources. *)
Definition nl : str := [10%N].

(** [sep.join(parts)] *)
Fixpoint join (sep : str) (parts : list str) : str :=
  match parts with
  | [] => []
  | [p] => p
  | p :: ps => p ++ sep ++ join sep ps
  end.

(** [l[i]] on a list, for [0 <= i]. *)
Definition index {A : Type} (l : list A) (i : nat) : result A :=
  match nth_error l i with
  | Some a => Ok a
  | None => Raise (IndexError (u "list index out of range"))
  end.

(** *** Integers and their decimal notation *)

Definition digit_val (c : char) : option Z :=
  if ((48 <=? c) && (c <=? 57))%N then Some (Z.of_N (c - 48)) else None.

(** Where the runs of ten decimal digits begin (the characters of
    [Numeric_Type=Decimal] of Unicode 14.0, the version of CPython
    3.11): the digit zero of each script. *)
Definition decimal_digit_zeros : list N := [
  48; 1632; 1776; 1984; 2406; 2534; 2662; 2790; 2918; 3046; 3174; 3302;
  3430; 3558; 3664; 3792; 3872; 4160; 4240; 6112; 6160; 6470; 6608; 6784;
  6800; 6992; 7088; 7232; 7248; 42528; 43216; 43264; 43472; 43504; 43600;
  44016; 65296; 66720; 68912; 69734; 69872; 69942; 70096; 70384; 70736;
  70864; 71248; 71360; 71472; 71904; 72016; 72784; 73040; 73120; 92768;
  92864; 93008; 120782; 120792; 120802; 120812; 120822; 123200; 123632;
  125264; 130032
]%N.

(** [Py_UNICODE_TODECIMAL] *)
Definition todecimal (c : char) : option N :=
  option_map (fun z => c - z)%N
             (find (fun z => (z <=? c) && (c <? z + 10))%N
                   decimal_digit_zeros).

(** [Py_ISSPACE]: the white space of ASCII. *)
Definition ascii_space (c : char) : bool :=
  ((9 <=? c) && (c <=? 13) || (c =? 32))%N.

(** [_PyUnicode_TransformDecimalAndSpaceToASCII] on a string that is
    not ASCII: white space becomes a space and a decimal digit its
    ASCII digit; at any other character from 127 on the result ends
    with a question mark. *)
Fixpoint to_ascii (s : str) : str :=
  match s with
  | [] => []
  | c :: r =>
    if (c <? 127)%N then c :: to_ascii r
    else if isspace c then 32%N :: to_ascii r
    else
      match todecimal c with
      | Some d => (48 + d)%N :: to_ascii r
      | None => [63%N]
      end
  end.

Fixpoint skip_ascii_space (s : str) : str :=
  match s with
  | [] => []
  | c :: r => if ascii_space c then skip_ascii_space r else s
  end.

(** The run of digits and underscores at the start of [s], as
    [PyLong_FromString] scans it: its digits and what follows it.
    [prev] is the character before; two underscores in a row and an
    underscore at the end of the run are refused. *)
Fixpoint scan_digits (prev : char) (s : str) : option (str * str) :=
  match s with
  | [] => if (prev =? 95)%N then None else Some ([], [])
  | c :: r =>
    if (c =? 95)%N then
      if (prev =? 95)%N then None else scan_digits c r
    else
      match digit_val c with
      | Some _ =>
        match scan_digits c r with
        | Some (ds, rest) => Some (c :: ds, rest)
        | None => None
        end
      | None => if (prev =? 95)%N then None else Some ([], s)
      end
  end.

(** [sys.get_int_max_str_digits()], by default. *)
Definition int_max_str_digits : nat := 4300.

(** The sign in front of the digits, if one stands there. *)
Definition split_sign (a : str) : bool * str :=
  match a with
  | c :: r =>
    if (c =? 43)%N then (false, r)
    else if (c =? 45)%N then (true, r)
    else (false, a)
  | [] => (false, a)
  end.

(** [int(s)] in base ten, as CPython 3.11 reads it: the string is
    made ASCII, white space of ASCII is skipped, one sign is allowed,
    the digits may be separated by single underscores, more than
    [int_max_str_digits] digits are refused, and only white space may
    follow.  Every failure is a [ValueError]. *)
Definition int (s : str) : result Z :=
  let a := if forallb (fun c => c <? 128)%N s then s else to_ascii s in
  let (negative, a) := split_sign (skip_ascii_space a) in
  if startswith [95%N] a then Raise ValueError
  else
    match scan_digits 0%N a with
    | Some (ds, rest) =>
      if (length ds =? 0)%nat || (int_max_str_digits <? length ds)%nat
      then Raise ValueError
      else
        match skip_ascii_space rest with
        | [] =>
          let z := fold_left (fun acc c => acc * 10 + Z.of_N (c - 48))%Z
                             ds 0%Z in
          Ok (if negative then (- z)%Z else z)
        | _ :: _ => Raise ValueError
        end
    | None => Raise ValueError
    end.

Fixpoint str_of_uint (d : Decimal.uint) : str :=
  match d with
  | Decimal.Nil => []
  | Decimal.D0 d' => 48%N :: str_of_uint d'
  | Decimal.D1 d' => 49%N :: str_of_uint d'
  | Decimal.D2 d' => 50%N :: str_of_uint d'
  | Decimal.D3 d' => 51%N :: str_of_uint d'
  | Decimal.D4 d' => 52%N :: str_of_uint d'
  | Decimal.D5 d' => 53%N :: str_of_uint d'
  | Decimal.D6 d' => 54%N :: str_of_uint d'
  | Decimal.D7 d' => 55%N :: str_of_uint d'
  | Decimal.D8 d' => 56%N :: str_of_uint d'
  | Decimal.D9 d' => 57%N :: str_of_uint d'
  end.

(** [str(n)] for a natural number. *)
Definition str_of_N (n : N) : str := str_of_uint (N.to_uint n).

(** [str(z)], also what [f"{z}"] inserts. *)
Definition str_of_Z (z : Z) : str :=
  if (z <? 0)%Z then 45%N :: str_of_N (Z.abs_N z) else str_of_N (Z.abs_N z).

(** [f"{z:02d}"]: sign-aware zero padding to a width of two. *)
Definition fmt_02d (z : Z) : str :=
  let ds := str_of_N (Z.abs_N z) in
  if (z <? 0)%Z then 45%N :: repeat 48%N (1 - length ds) ++ ds
  else repeat 48%N (2 - length ds) ++ ds.

(** *** Floats

    A finite float is the rational number it stands for.  The
    operations of [format_time] and of the speaker lines round as
    binary64 arithmetic does, by [round64]; none of them can overflow.
    Sums, differences and the division of the percentages are exact
    (their rounding is not modelled). *)

(** [int(x)] on a float: truncation towards zero. *)
Definition int_of_float (x : Q) : Z :=
  if Qle_bool 0 x then Qfloor x else Qceiling x.

(** *** binary64 *)

(** The exponent of the power of two at or below a positive [q]. *)
Definition ilog2 (q : Q) : Z :=
  let e0 := (Z.log2 (Qnum q) - Z.log2 (Zpos (Qden q)))%Z in
  if Qle_bool (2 ^ e0) q then e0 else (e0 - 1)%Z.

(** The nearest integer, the even one of two that are equally near. *)
Definition rne (r : Q) : Z :=
  let f := Qfloor r in
  let d := r - inject_Z f in
  if Qle_bool d (1 # 2) then
    if Qle_bool (1 # 2) d then (if Z.even f then f else f + 1)%Z else f
  else (f + 1)%Z.

(** The binary64 number nearest to [q], the one with an even last
    place of two that are equally near (overflow apart). *)
Definition round64 (q : Q) : Q :=
  if Qeq_bool q 0 then 0
  else
    let x := Z.max (ilog2 (Qabs q) - 52) (-1074) in
    (if Qle_bool 0 q then 1 else -1)
    * inject_Z (rne (Qabs q / 2 ^ x)) * 2 ^ x.

(** C's [fmod(x, y)]: exact, with the sign of [x]. *)
Definition c_fmod (x y : Q) : Q := x - y * inject_Z (int_of_float (x / y)).

Definition differ_in_sign (wx m : Q) : bool :=
  negb (Bool.eqb (negb (Qle_bool 0 wx)) (negb (Qle_bool 0 m))).

(** [x % y] on floats ([float_rem]), for [y] a non-zero literal. *)
Definition fmod (vx wx : Q) : Q :=
  let m := c_fmod vx wx in
  if negb (Qeq_bool m 0) && differ_in_sign wx m then round64 (m + wx) else m.

(** [x // y] on floats ([float_floor_div]), for [y] a non-zero
    literal. *)
Definition floordiv (vx wx : Q) : Q :=
  let m := c_fmod vx wx in
  let div := round64 (round64 (vx - m) / wx) in
  let div :=
    if negb (Qeq_bool m 0) && differ_in_sign wx m
    then round64 (div - 1) else div in
  if negb (Qeq_bool div 0) then
    let fl := inject_Z (Qfloor div) in
    if negb (Qle_bool (round64 (div - fl)) (1 # 2)) then round64 (fl + 1)
    else fl
  else 0.

(** [x * y] on floats. *)
Definition fmul (x y : Q) : Q := round64 (x * y).

(** Whether [q] is a binary64 number: rounding leaves it as it is. *)
Definition binary64 (q : Q) : bool := Qeq_bool (round64 q) q.

(** [x / y]: raises on a zero divisor. *)
Definition truediv (x y : Q) : result Q :=
  if Qeq_bool y 0 then Raise ZeroDivisionError else Ok (x / y).

(** [sum(values)] *)
Definition sum (l : list Q) : Q := fold_left Qplus l 0.

(** *** Dictionaries in insertion order *)

Section Dict.
Variables K V : Type.
Variable eqb : K -> K -> bool.
Variable repr : K -> str.

Definition dict := list (K * V).

Fixpoint lookup (k : K) (d : dict) : option V :=
  match d with
  | [] => None
  | (k', v) :: d' => if eqb k k' then Some v else lookup k d'
  end.

(** [d.get(k, default)] *)
Definition get (d : dict) (k : K) (default : V) : V :=
  match lookup k d with
  | Some v => v
  | None => default
  end.

(** [d[k]] *)
Definition getitem (d : dict) (k : K) : result V :=
  match lookup k d with
  | Some v => Ok v
  | None => Raise (KeyError (repr k))
  end.

(** [d[k] = v]: an existing key keeps its place, a new key goes
    last. *)
Fixpoint setitem (d : dict) (k : K) (v : V) : dict :=
  match d with
  | [] => [(k, v)]
  | (k', v') :: d' =>
    if eqb k k' then (k', v) :: d' else (k', v') :: setitem d' k v
  end.

Definition keys (d : dict) : list K := map fst d.
Definition values (d : dict) : list V := map snd d.
Definition items (d : dict) : list (K * V) := d.
End Dict.

(** *** [sorted(l, key=...)]: a stable sort

    [le a b] compares the keys of [a] and [b]; an element goes in
    front of the first later element whose key is not smaller, so
    elements with equal keys keep their order. *)

Section Sorted.
Variable A : Type.
Variable le : A -> A -> bool.

Fixpoint insert (x : A) (l : list A) : list A :=
  match l with
  | [] => [x]
  | y :: l' => if le x y then x :: l else y :: insert x l'
  end.

Definition sorted (l : list A) : list A := fold_right insert [] l.
End Sorted.

(** [a <= b] on strings: lexicographic on code points. *)
Fixpoint str_leb (a b : str) : bool :=
  match a, b with
  | [], _ => true
  | _ :: _, [] => false
  | x :: a', y :: b' =>
    if (x <? y)%N then true
    else if (x =? y)%N then str_leb a' b' else false
  end.

End Py.

(* ================================================================= *)
(** ** app/utils/formatting.py                                        *)
(* ================================================================= *)

Module Formatting.
Import Py.
Local Open Scope py_scope.

(** Truth value of an [Optional[str]]: [None] and the empty string
    are false. *)
Definition truthy (speaker : option str) : bool :=
  match speaker with
  | Some (_ :: _) => true
  | _ => false
  end.

Definition the (speaker : option str) : str :=
  match speaker with
  | Some s => s
  | None => []
  end.

Definition format_speaker (speaker : option str) : result str :=
  if truthy speaker && startswith (u "SPEAKER_") (the speaker) then
    piece <- index (split_on 95%N (the speaker)) 1 ;;
    n <- int piece ;;
    let num := (n + 1)%Z in
    Ok (u "คนพูด " ++ str_of_Z num)
  else
    Ok (if truthy speaker then the speaker else u "Unknown").

Definition format_time (seconds : Q) : str :=
  let m := int_of_float (floordiv seconds 60) in
  let s := int_of_float (fmod seconds 60) in
  let ms := int_of_float (fmul (fmod seconds 1) 100) in
  fmt_02d m ++ u ":" ++ fmt_02d s ++ u "." ++ fmt_02d ms.

End Formatting.

(* ================================================================= *)
(** ** app/services/pipeline.py: the aggregation pass of [process]    *)
(* ================================================================= *)

Module Pipeline.
Import Py Formatting.
Local Open Scope py_scope.

(** A transcript segment as [whisperx.assign_word_speakers] leaves
    it: ['start'] and ['end'] are read by subscript, ['speaker'] and
    ['text'] by [.get]. *)
Record segment : Type := {
  seg_start : Q;
  seg_end : Q;
  seg_speaker : option str;
  seg_text : option str
}.

Record speaker_summary : Type := {
  speaking_time : dict str Q;
  word_count : dict str Z
}.

(** The three locals the loop updates. *)
Record locals : Type := {
  speakers_time : dict str Q;
  speakers_words : dict str Z;
  transcript_lines : list str
}.

Definition text_of (seg : segment) : str :=
  strip (match seg_text seg with Some t => t | None => [] end).

Definition line_of (speaker text : str) : str :=
  u "[" ++ speaker ++ u "]: " ++ text.

(** The body of [for segment in segments]. *)
Definition loop_body (st : locals) (seg : segment) : result locals :=
  speaker <- format_speaker (seg_speaker seg) ;;
  let duration := seg_end seg - seg_start seg in
  let text := text_of seg in
  let words := Z.of_nat (length (split text)) in
  Ok {| speakers_time :=
          setitem str_eqb (speakers_time st) speaker
            (get str_eqb (speakers_time st) speaker 0 + duration);
        speakers_words :=
          setitem str_eqb (speakers_words st) speaker
            (get str_eqb (speakers_words st) speaker 0 + words)%Z;
        transcript_lines :=
          transcript_lines st ++ [line_of speaker text] |}.

Fixpoint for_each (segs : list segment) (st : locals) : result locals :=
  match segs with
  | [] => Ok st
  | seg :: rest => st' <- loop_body st seg ;; for_each rest st'
  end.

Definition by_start (a b : segment) : bool :=
  Qle_bool (seg_start a) (seg_start b).

(** What [process] puts under ['full_transcript'] (without
    ['combined_text'], which comes from the transcription alone). *)
Record full_transcript : Type := {
  segments : list segment;
  transcript_with_speakers : str;
  summary : speaker_summary
}.

Definition process (result_segments : list segment) : result full_transcript :=
  let segs := sorted by_start result_segments in
  st <- for_each segs
          {| speakers_time := []; speakers_words := [];
             transcript_lines := [] |} ;;
  Ok {| segments := segs;
        transcript_with_speakers := join nl (transcript_lines st);
        summary := {| speaking_time := speakers_time st;
                      word_count := speakers_words st |} |}.

(** One row of the speaker table of [print_results]. *)
Record table_row : Type := {
  row_speaker : str;
  row_time : str;
  row_pct : Q;
  row_words : Z
}.

Definition by_item (a b : str * Q) : bool :=
  if str_eqb (fst a) (fst b) then Qle_bool (snd a) (snd b)
  else str_leb (fst a) (fst b).

Fixpoint rows (total_time : Q) (speakers_words : dict str Z)
         (its : list (str * Q)) : result (list table_row) :=
  match its with
  | [] => Ok []
  | (speaker, t) :: rest =>
    pct <- (if negb (Qle_bool total_time 0)
            then q <- truediv t total_time ;; Ok (q * 100)
            else Ok 0) ;;
    let words := get str_eqb speakers_words speaker 0%Z in
    tl <- rows total_time speakers_words rest ;;
    Ok ({| row_speaker := speaker; row_time := format_time t;
           row_pct := pct; row_words := words |} :: tl)
  end.

Definition print_results (out : full_transcript) : result (list table_row) :=
  let speakers_time := speaking_time (summary out) in
  let speakers_words := word_count (summary out) in
  let total_time := sum (values speakers_time) in
  rows total_time speakers_words (sorted by_item (items speakers_time)).

End Pipeline.

(* ================================================================= *)
(** ** SummaryModel.py (and app/services/summarizer.py)               *)
(* ================================================================= *)

Module SummaryModel.
Import Py.
Local Open Scope py_scope.

Record meeting_type : Type := {
  name : str;
  thai : str;
  structure : str
}.

Definition MEETING_TYPES : dict Z meeting_type := [
  (0%Z, {| name := u "Auto-Detect";
         thai := u "ตรวจจับอัตโนมัติ";
         structure := u "วิเคราะห์จากเนื้อหา" |});
  (1%Z, {| name := u "Shareholder Meeting";
         thai := u "ประชุมผู้ถือหุ้น";
         structure := u "วาระ → มติ → เงินปันผล → ข้อสรุป" |});
  (2%Z, {| name := u "Board Meeting";
         thai := u "ประชุมคณะกรรมการ";
         structure := u "นโยบาย → การอนุมัติ → มติคณะกรรมการ" |});
  (3%Z, {| name := u "Planning Meeting";
         thai := u "ประชุมวางแผน";
         structure := u "เป้าหมาย → แผนงาน → ไทม์ไลน์ → ผู้รับผิดชอบ → ความเสี่ยง" |});
  (4%Z, {| name := u "Progress Update";
         thai := u "รายงานความคืบหน้า";
         structure := u "สถานะโครงการ → ความคืบหน้า → ปัญหา → แนวทางแก้ → งานถัดไป" |});
  (5%Z, {| name := u "Strategy Meeting";
         thai := u "ประชุมเชิงกลยุทธ์";
         structure := u "ทิศทางธุรกิจ → การวิเคราะห์ → กลยุทธ์ → Action Plan" |});
  (6%Z, {| name := u "Incident Review";
         thai := u "ประชุมแก้ไขปัญหา";
         structure := u "รายละเอียดปัญหา → สาเหตุ → ผลกระทบ → แนวทางแก้ไข → การป้องกัน" |});
  (7%Z, {| name := u "Client Meeting";
         thai := u "ประชุมลูกค้า";
         structure := u "ข้อเสนอ → Feedback → ข้อตกลง → Next Steps" |});
  (8%Z, {| name := u "Workshop";
         thai := u "เชิงปฏิบัติการ";
         structure := u "หัวข้อ → เนื้อหาสำคัญ → บทเรียน → Action Items" |});
  (9%Z, {| name := u "Executive Meeting";
         thai := u "ประชุมผู้บริหาร";
         structure := u "ประเด็นสำคัญ → การตัดสินใจ → มติ → ผู้รับผิดชอบ" |});
  (10%Z, {| name := u "Team Meeting";
         thai := u "ประชุมทีมงาน";
         structure := u "อัพเดตงาน → การมอบหมาย → ปัญหา → สิ่งที่ต้องทำ" |});
  (11%Z, {| name := u "General Meeting";
         thai := u "ประชุมทั่วไป";
         structure := u "วาระ → ประเด็นหารือ → ข้อเสนอแนะ → มติ" |})
].

(** One line of the table of the auto-detect prompt. *)
Definition types_row (info : meeting_type) : str :=
  u "| " ++ name info ++ u " | " ++ structure info ++ u " |".

Definition auto_detect_head : list str := [
  u "**ขั้นตอน:**";
  u "1. วิเคราะห์ข้อมูลผู้พูดเพื่อระบุบทบาท (ประธาน/ผู้นำเสนอ/ผู้เข้าร่วม)";
  u "2. วิเคราะห์เนื้อหาเพื่อระบุประเภทการประชุม";
  u "3. สรุปตามโครงสร้างที่เหมาะสม";
  [];
  u "**ประเภทการประชุม:**";
  u "| ประเภท | โครงสร้าง |";
  u "|--------|----------|"
].

(** The prompt of a selected type. *)
Definition specific_prompt (info : meeting_type) : str :=
  join nl [
    u "**ประเภทการประชุม:** " ++ thai info ++ u " (" ++ name info ++ u ")";
    u "**โครงสร้างการสรุป:** " ++ structure info;
    [];
    u "สรุปเนื้อหาตามโครงสร้างข้างต้นอย่างละเอียด"
  ].

Definition get_meeting_type_prompt (meeting_type_id : Z) : result str :=
  if (meeting_type_id =? 0)%Z then
    let types_table :=
      join nl
        (map (fun it => types_row (snd it))
             (filter (fun it => (fst it >? 0)%Z) (items MEETING_TYPES))) in
    Ok (join nl (auto_detect_head ++ [types_table]))
  else
    fallback <- getitem Z.eqb str_of_Z MEETING_TYPES 11%Z ;;
    let info := get Z.eqb MEETING_TYPES meeting_type_id fallback in
    Ok (specific_prompt info).

(** [MEETING_TYPES.get(meeting_type_id, MEETING_TYPES[0])], as in
    [summarize_with_diarization] and in [process]. *)
Definition meeting_type_info (meeting_type_id : Z) : result meeting_type :=
  fallback <- getitem Z.eqb str_of_Z MEETING_TYPES 0%Z ;;
  Ok (get Z.eqb MEETING_TYPES meeting_type_id fallback).

(** *** The speaker lines of the prompt *)

(** What one line [f"- {speaker}: {mins}:{secs:02d} ({pct:.1f}%), {words} ..."]
    is made of. *)
Record info_line : Type := {
  line_speaker : str;
  line_mins : Z;
  line_secs : Z;
  line_pct : Q;
  line_words : Z
}.

(** [sum(speakers_time.values()) if speakers_time else 1] *)
Definition total_time_of (speakers_time : dict str Q) : Q :=
  match speakers_time with
  | [] => 1
  | _ :: _ => sum (values speakers_time)
  end.

(** [(time_sec / total_time * 100) if total_time > 0 else 0] *)
Definition percentage (time_sec total_time : Q) : result Q :=
  if negb (Qle_bool total_time 0)
  then q <- truediv time_sec total_time ;; Ok (q * 100)
  else Ok 0.

(** [key=lambda x: -x[1]] *)
Definition by_time_desc (a b : str * Q) : bool :=
  Qle_bool (- snd a) (- snd b).

Fixpoint info_lines (total_time : Q) (speakers_words : dict str Z)
         (its : list (str * Q)) : result (list info_line) :=
  match its with
  | [] => Ok []
  | (speaker, time_sec) :: rest =>
    pct <- percentage time_sec total_time ;;
    let words := get str_eqb speakers_words speaker 0%Z in
    let mins := int_of_float (floordiv time_sec 60) in
    let secs := int_of_float (fmod time_sec 60) in
    tl <- info_lines total_time speakers_words rest ;;
    Ok ({| line_speaker := speaker; line_mins := mins; line_secs := secs;
           line_pct := pct; line_words := words |} :: tl)
  end.

Definition speaker_info (speakers_time : dict str Q)
           (speakers_words : dict str Z) : result (list info_line) :=
  let total_time := total_time_of speakers_time in
  info_lines total_time speakers_words
             (sorted by_time_desc (items speakers_time)).

(** *** The call of the gateway *)

(** The value [response.json()] returns. *)
#[local] Set Warnings "-register-all".
Inductive json : Type :=
| JNull
| JBool (b : bool)
| JNum (q : Q)
| JStr (s : str)
| JArr (l : list json)
| JObj (fields : list (str * json)).

Inductive subscript : Type :=
| Key (k : str)
| Idx (i : nat).

Definition repr_str (k : str) : str := u "'" ++ k ++ u "'".

(** [v[k]] *)
Definition subscr (v : json) (k : subscript) : result json :=
  match v, k with
  | JObj fields, Key k => getitem str_eqb repr_str fields k
  | JObj _, Idx i => Raise (KeyError (str_of_N (N.of_nat i)))
  | JArr l, Idx i => index l i
  | JArr _, Key _ => Raise TypeError
  | JStr s, Idx i =>
    match nth_error s i with
    | Some c => Ok (JStr [c])
    | None => Raise (IndexError (u "string index out of range"))
    end
  | JStr _, Key _ => Raise TypeError
  | JNull, _ | JBool _, _ | JNum _, _ => Raise TypeError
  end.

(** The fields interpolated into the payload of the request. *)
Record request : Type := {
  req_url : str;
  req_authorization : str;
  req_instruction : str;
  req_heading : str;
  req_num_speakers : nat;
  req_structure : str;
  req_language : str;
  req_speaker_info : list info_line;
  req_transcript : str
}.

(** What the [try] block meets: [requests.post], [raise_for_status]
    or [response.json()] raise a [RequestException] whose text is
    [msg], or the body is read as [body]. *)
Inductive reply : Type :=
| Failed (msg : str)
| Body (body : json).

Section Gateway.
(** [os.getenv("NTC_API_KEY")], [NTC_API_URL] and the network. *)
Variable NTC_API_KEY : option str.
Variable NTC_API_URL : str.
Variable post : request -> reply.

Definition key_missing : bool :=
  match NTC_API_KEY with
  | Some (_ :: _) => false
  | _ => true
  end.

(** [result["choices"][0]["message"]["content"]] *)
Definition content_of (body : json) : result json :=
  choices <- subscr body (Key (u "choices")) ;;
  first <- subscr choices (Idx 0) ;;
  message <- subscr first (Key (u "message")) ;;
  subscr message (Key (u "content")).

(** The [try] block with its two handlers. *)
Definition call_gateway (req : request) : result json :=
  match post req with
  | Failed msg => Ok (JStr (u "Error calling NTC API: " ++ msg))
  | Body body =>
    match content_of body with
    | Ok content => Ok content
    | Raise (KeyError k) => Ok (JStr (u "Error parsing response: " ++ k))
    | Raise (IndexError m) => Ok (JStr (u "Error parsing response: " ++ m))
    | Raise e => Raise e
    end
  end.

(** The requests issued, and what the caller gets. *)
Definition summarize_with_diarization
           (transcript_with_speakers : str)
           (speakers_time : dict str Q) (speakers_words : dict str Z)
           (meeting_type_id : Z) (language : str)
  : list request * result json :=
  if key_missing then
    ([], Ok (JStr (u "Error: NTC_API_KEY not found in environment variables")))
  else
    match
      (lines <- speaker_info speakers_time speakers_words ;;
       let num_speakers := length speakers_time in
       instruction <- get_meeting_type_prompt meeting_type_id ;;
       info <- meeting_type_info meeting_type_id ;;
       Ok {| req_url := NTC_API_URL;
             req_authorization :=
               u "Bearer " ++ match NTC_API_KEY with
                              | Some k => k
                              | None => []
                              end;
             req_instruction := instruction;
             req_heading :=
               if (meeting_type_id >? 0)%Z then thai info
               else u "ประเภท";
             req_num_speakers := num_speakers;
             req_structure := structure info;
             req_language := language;
             req_speaker_info := lines;
             req_transcript := transcript_with_speakers |})
    with
    | Raise e => ([], Raise e)
    | Ok req => ([req], call_gateway req)
    end.
End Gateway.

End SummaryModel.

(* ================================================================= *)
(** ** app/services/summarizer.py: get_meeting_type_prompt            *)
(* ================================================================= *)

Module Summarizer.
Import Py SummaryModel.
Local Open Scope py_scope.

Section Meeting.
(** [app/models/meeting.py] is not among the sources: its table and
    its function [get_meeting_focus_prompt] are taken as they come. *)
Variable MEETING_TYPES : dict Z meeting_type.
Variable get_meeting_focus_prompt : Z -> result str.

Definition specific_prompt (info : meeting_type) (focus_prompt : str) : str :=
  join nl [
    u "**ประเภทการประชุม:** " ++ thai info ++ u " (" ++ name info ++ u ")";
    u "**โครงสร้างการสรุป:** " ++ structure info;
    [];
    focus_prompt;
    [];
    u "สรุปเนื้อหาตามโครงสร้างข้างต้น โดยเน้นความละเอียดในประเด็นหัวใจหลัก"
  ].

Definition get_meeting_type_prompt (meeting_type_id : Z) : result str :=
  if (meeting_type_id =? 0)%Z then
    let types_table :=
      join nl
        (map (fun it => types_row (snd it))
             (filter (fun it => (fst it >? 0)%Z) (items MEETING_TYPES))) in
    Ok (join nl (auto_detect_head ++ [types_table]))
  else
    fallback <- getitem Z.eqb str_of_Z MEETING_TYPES 11%Z ;;
    let info := get Z.eqb MEETING_TYPES meeting_type_id fallback in
    focus_prompt <- get_meeting_focus_prompt meeting_type_id ;;
    Ok (specific_prompt info focus_prompt).

(** [MEETING_TYPES.get(meeting_type_id, MEETING_TYPES[0])] *)
Definition meeting_type_info (meeting_type_id : Z) : result meeting_type :=
  fallback <- getitem Z.eqb str_of_Z MEETING_TYPES 0%Z ;;
  Ok (get Z.eqb MEETING_TYPES meeting_type_id fallback).
End Meeting.

End Summarizer.

(* ================================================================= *)
(** ** api.py: the [/api/transcribe-summarize] endpoint               *)
(* ================================================================= *)

Module Api.
Import Py.
Import SummaryModel.

(** [p.rfind(c)], with [-1] when [c] does not occur. *)
Fixpoint rfind_from (c : char) (p : str) (i : Z) (found : Z) : Z :=
  match p with
  | [] => found
  | x :: r => rfind_from c r (i + 1) (if (x =? c)%N then i else found)
  end.

Definition rfind (c : char) (p : str) : Z := rfind_from c p 0 (-1).

(** [p[i:j]] for [0 <= i]. *)
Definition slice (p : str) (i j : Z) : str :=
  firstn (Z.to_nat (j - i)) (skipn (Z.to_nat i) p).

(** [os.path.splitext] of [posixpath]: the extension starts at the
    last dot of the last component, unless only dots stand before
    it in that component. *)
Definition splitext (p : str) : str * str :=
  let sepIndex := rfind 47%N p in
  let dotIndex := rfind 46%N p in
  if (dotIndex >? sepIndex)%Z
     && existsb (fun x => negb (x =? 46)%N) (slice p (sepIndex + 1) dotIndex)
  then (firstn (Z.to_nat dotIndex) p, skipn (Z.to_nat dotIndex) p)
  else (p, []).

Definition allowed_extensions : list str :=
  [u ".mp3"; u ".wav"; u ".m4a"; u ".flac"; u ".ogg"; u ".webm"; u ".mp4"].

(** [x in l] on a list of strings. *)
Definition mem (x : str) (l : list str) : bool := existsb (str_eqb x) l.

(** [os.path.join(a, b)] of [posixpath]. *)
Definition path_join (a b : str) : str :=
  if startswith (u "/") b then b
  else
    match rev a with
    | [] => b
    | 47%N :: _ => a ++ b
    | _ => a ++ u "/" ++ b
    end.

(** What the endpoint does besides answering.  [TryBody] is the body
    of the [try] block: the upload is written to [temp_file] and
    [pipeline.process] is called on it. *)
Inductive effect : Type :=
| Mkdtemp
| TryBody (temp_file : str) (meeting_type_id : Z) (speaker_names : list json)
| Rmtree (path : str).

(** What [json.loads] does with a text: it returns a value, raises
    [JSONDecodeError], which the endpoint catches ([TypeError], the
    other exception it catches, is not raised on a string), or raises
    another exception, named here: [RecursionError] on deeply nested
    brackets. *)
Inductive loads_outcome : Type :=
| Loaded (value : json)
| DecodeError
| OtherError (exception : str).

Section Endpoint.
(** What the endpoint takes from outside: [str.lower], [json.loads],
    the directory [tempfile.mkdtemp()] returns, and the outcome of
    the body of the [try] block: the response built from the output
    of the pipeline, or the text [str(e)] of the exception raised on
    the way. *)
Variable lower : str -> str.
Variable json_loads : str -> loads_outcome.
Variable temp_dir : str.
Variable Response : Type.
Variable run : str -> Z -> list json -> str + Response.

(** How the call of the endpoint ends: with an [HTTPException], with
    a response, or with another exception that leaves the function,
    which the server answers with status 500. *)
Inductive http : Type :=
| HTTPException (status_code : Z) (detail : str)
| Returned (response : Response)
| Unhandled (exception : str).

(** The effects performed, in order, and the outcome. *)
Definition transcribe_summarize
           (filename : str) (meeting_type_id : Z) (speaker_names : str)
  : list effect * http :=
  if (meeting_type_id <? 0)%Z || (meeting_type_id >? 11)%Z then
    ([], HTTPException 400 (u "meeting_type_id must be between 0 and 11"))
  else
    match json_loads speaker_names with
    | OtherError exception => ([], Unhandled exception)
    | loaded =>
      let speaker_names_list :=
        match loaded with
        | Loaded (JArr l) => l
        | _ => []
        end in
      let file_ext := lower (snd (splitext filename)) in
      if negb (mem file_ext allowed_extensions) then
        ([], HTTPException 400
               (u "Unsupported file type. Allowed: "
                ++ join (u ", ") allowed_extensions))
      else
        let temp_file := path_join temp_dir filename in
        let performed :=
          [Mkdtemp; TryBody temp_file meeting_type_id speaker_names_list;
           Rmtree temp_dir] in
        match run temp_file meeting_type_id speaker_names_list with
        | inr response => (performed, Returned response)
        | inl e =>
          (performed, HTTPException 500 (u "Processing error: " ++ e))
        end
    end.
End Endpoint.


End Api.

(* ================================================================= *)
(** ** Reference descriptions                                         *)
(* ================================================================= *)

Module Spec.
Import Py Formatting Pipeline SummaryModel.

Definition is_digit (c : char) : Prop := (48 <= c <= 57)%N.

(** The number a string of decimal digits denotes. *)
Definition decimal_step (acc : Z) (c : char) : Z :=
  (acc * 10 + Z.of_N (c - 48))%Z.

Definition decimal (ds : str) : Z := fold_left decimal_step ds 0%Z.


(** *** The aggregation pass *)

(** The segment has a speaker that [format_speaker] takes. *)
Definition accepted (seg : segment) : Prop :=
  exists label : str, format_speaker (seg_speaker seg) = Ok label.


Definition duration (seg : segment) : Q := seg_end seg - seg_start seg.

(** The words of the stripped text, split at white space. *)
Definition words_of (seg : segment) : Z :=
  Z.of_nat (length (split (text_of seg))).





(** The line of the transcript a segment gives. *)
Definition line_for (seg : segment) (line : str) : Prop :=
  exists label : str,
    format_speaker (seg_speaker seg) = Ok label
    /\ line = u "[" ++ label ++ u "]: "
              ++ strip (match seg_text seg with Some t => t | None => [] end).

Definition starts_le (a b : segment) : Prop := seg_start a <= seg_start b.

(** *** Sample inputs *)

Definition sample_segments : list segment := [
  {| seg_start := 5; seg_end := 7;
     seg_speaker := Some (u "SPEAKER_00"); seg_text := Some (u " a b ") |};
  {| seg_start := 1; seg_end := 2;
     seg_speaker := None; seg_text := Some (u "x") |};
  {| seg_start := 3; seg_end := 4;
     seg_speaker := Some (u "SPEAKER_00"); seg_text := None |}
].


(** The order a comparison function decides. *)
Definition holds {A : Type} (le : A -> A -> bool) (a b : A) : Prop :=
  le a b = true.

(** [hay] embeds [needle]. *)
Definition embeds (hay needle : str) : Prop :=
  exists before after, hay = before ++ needle ++ after.

(** The entry of [MEETING_TYPES] under a key, when there is one. *)
Definition entry (k : Z) : option meeting_type :=
  lookup Z.eqb k MEETING_TYPES.

End Spec.

(* ================================================================= *)
(** ** SummaryModel.py: summarize_transcription                       *)
(* ================================================================= *)

Module Transcription.
Import Py SummaryModel.

(** The two handlers of the [try] block, on what the request gave. *)
Definition handle (r : reply) : result json :=
  match r with
  | Failed msg => Ok (JStr (u "Error calling NTC API: " ++ msg))
  | Body body =>
    match content_of body with
    | Ok content => Ok content
    | Raise (KeyError k) => Ok (JStr (u "Error parsing response: " ++ k))
    | Raise (IndexError m) => Ok (JStr (u "Error parsing response: " ++ m))
    | Raise e => Raise e
    end
  end.

(** The fields interpolated into the payload of the request. *)
Record text_request : Type := {
  treq_url : str;
  treq_authorization : str;
  treq_language : str;
  treq_text : str
}.

Section Gateway.
Variable NTC_API_KEY : option str.
Variable NTC_API_URL : str.
Variable post : text_request -> reply.

(** The requests issued, and what the caller gets. *)
Definition summarize_transcription (transcription_text language : str)
  : list text_request * result json :=
  if key_missing NTC_API_KEY then
    ([], Ok (JStr (u "Error: NTC_API_KEY not found in environment variables")))
  else
    let req :=
      {| treq_url := NTC_API_URL;
         treq_authorization :=
           u "Bearer " ++ match NTC_API_KEY with
                          | Some k => k
                          | None => []
                          end;
         treq_language := language;
         treq_text := transcription_text |} in
    ([req], handle (post req)).
End Gateway.

End Transcription.

(* ================================================================= *)
(** ** api.py calling pipeline.py                                     *)
(* ================================================================= *)

Module Call.
Import Py SummaryModel Api.

(** A parameter that may be given by position or by keyword. *)
Record parameter : Type := {
  param_name : str;
  has_default : bool
}.

(** [def process(self, audio_file: str, meeting_type_id: int = 0)],
    without [self]. *)
Definition process_parameters : list parameter := [
  {| param_name := u "audio_file"; has_default := false |};
  {| param_name := u "meeting_type_id"; has_default := true |}
].

(** Whether a call with [positional] arguments by position and the
    arguments [keywords] by name binds to [params]: no more positional
    arguments than parameters, every keyword the name of a parameter
    that no positional argument has taken, no keyword twice, and every
    parameter without default given.  Otherwise the call raises
    [TypeError] and the body is not entered. *)
Definition binds (params : list parameter) (positional : nat)
           (keywords : list str) : bool :=
  let by_position := map param_name (firstn positional params) in
  let by_keyword := map param_name (skipn positional params) in
  (positional <=? length params)%nat
  && forallb (fun k => mem k by_keyword) keywords
  && forallb (fun k => (count_occ (list_eq_dec N.eq_dec) keywords k =? 1)%nat)
             keywords
  && forallb (fun p => has_default p || mem (param_name p) keywords)
             (skipn positional params).

Section TryBody.
(** What the [try] block of the endpoint meets: writing the upload
    ([Some e] when it raises, [e] being [str] of the exception), the
    text of the [TypeError] of a call that does not bind, and what
    [process] does once it is entered, with the response built from
    its output. *)
Variable Response : Type.
Variable write_upload : str -> option str.
Variable type_error_text : str.
Variable process_body : str -> Z -> str + Response.

(** [pipeline.process(temp_file, meeting_type_id=meeting_type_id,
    speaker_names=speaker_names_list)] and what follows. *)
Definition try_body (temp_file : str) (meeting_type_id : Z)
           (speaker_names_list : list json) : str + Response :=
  match write_upload temp_file with
  | Some e => inl e
  | None =>
    if binds process_parameters 1 [u "meeting_type_id"; u "speaker_names"]
    then process_body temp_file meeting_type_id
    else inl type_error_text
  end.
End TryBody.

End Call.

(* ================================================================= *)
(** ** TM.py: the choice of the meeting type and the printed table    *)
(* ================================================================= *)

Module Main.
Import Py Formatting Pipeline SummaryModel.
Local Open Scope py_scope.

(** The [while True] loop that reads the meeting type: [answers] are
    the lines [input()] returns, one after the other; [None] when they
    run out before an answer is taken. *)
Fixpoint choose_meeting_type (answers : list str) : option Z :=
  match answers with
  | [] => None
  | answer :: rest =>
    match int (strip answer) with
    | Ok meeting_type_id =>
      if (0 <=? meeting_type_id)%Z && (meeting_type_id <=? 11)%Z
      then Some meeting_type_id
      else choose_meeting_type rest
    | Raise _ => choose_meeting_type rest
    end
  end.

(** [selected_type = MEETING_TYPES[meeting_type_id]] after the loop. *)
Definition selected_type (answers : list str) : option (result meeting_type) :=
  match choose_meeting_type answers with
  | Some meeting_type_id =>
    Some (getitem Z.eqb str_of_Z MEETING_TYPES meeting_type_id)
  | None => None
  end.

(** [f"{s:<width}"] *)
Definition ljust (width : nat) (s : str) : str :=
  s ++ repeat 32%N (width - length s).

(** The lines [print_results] prints under FULL TRANSCRIPT, one per
    segment. *)
Fixpoint transcript_table (segs : list segment) : result (list str) :=
  match segs with
  | [] => Ok []
  | seg :: rest =>
    speaker <- format_speaker (seg_speaker seg) ;;
    let text := text_of seg in
    let start := format_time (seg_start seg) in
    let end_ := format_time (seg_end seg) in
    tl <- transcript_table rest ;;
    Ok ((ljust 10 start ++ u " " ++ ljust 10 end_ ++ u " "
         ++ ljust 12 speaker ++ u " " ++ text) :: tl)
  end.

End Main.

(* ================================================================= *)
(** ** app/utils/export.py                                            *)
(* ================================================================= *)

Module ExportUtils.
Import Py Formatting Pipeline Api.
Local Open Scope py_scope.

(** *** The document, as far as the exports build it *)

Record run : Type := {
  run_text : str;
  run_bold : bool;
  run_size : option Z
}.

Inductive block : Type :=
| Heading (text : str) (level : Z) (centered : bool)
| Paragraph (style : option str) (runs : list run)
| Table (style : str) (header : list str) (rows : list (list str)).

(** The characters lxml takes in a text: those of XML 1.0.
    python-docx makes elements of their own of tab, line feed and
    carriage return and hands the rest of a text to lxml, which raises
    [ValueError] on any other control character, on a surrogate and on
    U+FFFE and U+FFFF. *)
Definition xml_char (c : char) : bool :=
  ((c =? 9) || (c =? 10) || (c =? 13)
   || (32 <=? c) && (c <=? 55295)
   || (57344 <=? c) && (c <=? 65533)
   || (65536 <=? c) && (c <=? 1114111))%N.

Definition xml_compatible (text : str) : bool := forallb xml_char text.

(** The texts of a document, in the order they were added. *)
Definition block_texts (b : block) : list str :=
  match b with
  | Heading text _ _ => [text]
  | Paragraph _ runs => map run_text runs
  | Table _ header rows => header ++ concat rows
  end.

Definition texts (doc : list block) : list str := flat_map block_texts doc.

(** How an export ends once the blocks of the document are known:
    with the [ValueError] of the first text that is not
    XML-compatible, with what [doc.save(output_path)] raises ([save]
    tells it), or with the document written and [output_path]
    returned. *)
Definition finish (save : str -> list block -> option exn)
           (doc : list block) (output_path : str)
  : result (option (list block) * str) :=
  if forallb xml_compatible (texts doc) then
    match save output_path doc with
    | None => Ok (Some doc, output_path)
    | Some e => Raise e
    end
  else Raise ValueError.

(** [doc.add_paragraph(text)]: a run is added for a text that is not
    empty. *)
Definition paragraph_of (text : str) : block :=
  Paragraph None
            (match text with
             | [] => []
             | _ :: _ => [{| run_text := text; run_bold := false;
                             run_size := None |}]
             end).

Definition plain (text : str) : run :=
  {| run_text := text; run_bold := false; run_size := None |}.

Definition bold (text : str) : run :=
  {| run_text := text; run_bold := true; run_size := None |}.

(** [s.endswith(p)] *)
Definition endswith (p s : str) : bool := startswith (rev p) (rev s).


(** *** export_transcript_to_docx *)

(** The speaker shown for a segment. *)
Definition label (format_speaker_func : option (option str -> result str))
           (seg : segment) : result str :=
  let format_speaker :=
    match format_speaker_func with
    | Some f => f
    | None => Formatting.format_speaker
    end in
  let speaker := match seg_speaker seg with Some s => s | None => [] end in
  if match speaker with [] => true | _ :: _ => false end
     || startswith (u "SPEAKER_") speaker
  then format_speaker (seg_speaker seg)
  else Ok speaker.


(** The locals of the loop that builds the combined text. *)
Record combining : Type := {
  combined_lines : list str;
  current_speaker : option str;
  current_text : list str
}.

Definition combined_line (speaker : str) (texts : list str) : str :=
  u "[" ++ speaker ++ u "]: " ++ join (u " ") texts.

(** [if current_speaker and current_text: combined_lines.append(...)] *)
Definition flush (st : combining) : list str :=
  match current_speaker st, current_text st with
  | Some ((_ :: _) as speaker), _ :: _ =>
    combined_lines st ++ [combined_line speaker (current_text st)]
  | _, _ => combined_lines st
  end.

Definition combine_step (format_speaker_func : option (option str -> result str))
           (st : combining) (seg : segment) : result combining :=
  speaker <- label format_speaker_func seg ;;
  let text := text_of seg in
  if match current_speaker st with
     | Some current => str_eqb speaker current
     | None => false
     end
  then Ok {| combined_lines := combined_lines st;
             current_speaker := current_speaker st;
             current_text := current_text st ++ [text] |}
  else Ok {| combined_lines := flush st;
             current_speaker := Some speaker;
             current_text := [text] |}.

Fixpoint combine (format_speaker_func : option (option str -> result str))
         (segs : list segment) (st : combining) : result combining :=
  match segs with
  | [] => Ok st
  | seg :: rest =>
    st' <- combine_step format_speaker_func st seg ;;
    combine format_speaker_func rest st'
  end.

(** The lines of the combined text. *)
Definition combined (format_speaker_func : option (option str -> result str))
           (segments : list segment) : result (list str) :=
  st <- combine format_speaker_func (sorted by_start segments)
                {| combined_lines := []; current_speaker := None;
                   current_text := [] |} ;;
  Ok (flush st).

Section Transcript.
(** Whether [python-docx] could be imported, what
    [datetime.now().strftime('%Y-%m-%d %H:%M:%S')] returns, and what
    [doc.save] raises, if it raises. *)
Variable DOCX_AVAILABLE : bool.
Variable now : str.
Variable save : str -> list block -> option exn.

End Transcript.

(** *** export_summary_to_docx: the participants *)

Record positions : Type := {
  leader : str;
  main : str;
  participant : str
}.

Definition POSITION_TEMPLATES : dict Z positions := [
  (0%Z, {| leader := u "ประธาน"; main := u "ผู้นำเสนอ"; participant := u "ผู้เข้าร่วม" |});
  (1%Z, {| leader := u "ประธาน"; main := u "กรรมการ"; participant := u "ผู้ถือหุ้น" |});
  (2%Z, {| leader := u "ประธาน"; main := u "กรรมการ"; participant := u "ผู้เข้าร่วม" |});
  (3%Z, {| leader := u "ผู้จัดการโครงการ"; main := u "ผู้รับผิดชอบ"; participant := u "ทีมงาน" |});
  (4%Z, {| leader := u "ผู้รายงาน"; main := u "ผู้รับผิดชอบ"; participant := u "ผู้เข้าร่วม" |});
  (5%Z, {| leader := u "ผู้บริหาร"; main := u "ผู้นำเสนอ"; participant := u "ผู้เข้าร่วม" |});
  (6%Z, {| leader := u "หัวหน้าทีม"; main := u "ผู้เกี่ยวข้อง"; participant := u "ผู้เข้าร่วม" |});
  (7%Z, {| leader := u "ผู้แทนบริษัท"; main := u "ผู้นำเสนอ"; participant := u "ลูกค้า" |});
  (8%Z, {| leader := u "ผู้บรรยาย"; main := u "ผู้ช่วยบรรยาย"; participant := u "ผู้เข้าร่วม" |});
  (9%Z, {| leader := u "ประธาน"; main := u "ผู้บริหาร"; participant := u "ผู้เข้าร่วม" |});
  (10%Z, {| leader := u "หัวหน้าทีม"; main := u "ผู้นำเสนอ"; participant := u "สมาชิกทีม" |});
  (11%Z, {| leader := u "ประธาน"; main := u "ผู้นำเสนอ"; participant := u "ผู้เข้าร่วม" |})
].

(** The locals of the loop over the sorted speakers. *)
Record grouping : Type := {
  added : list block;
  leader_added : bool;
  main_speakers : list str;
  participants : list str
}.

Definition leader_paragraph (pos : positions) (speaker : str) : block :=
  Paragraph (Some (u "List Bullet")) [bold (leader pos ++ u ": "); plain speaker].

(** [(time_sec / total_time * 100) if total_time > 0 else 0] *)
Definition share (time_sec total_time : Q) : result Q :=
  if negb (Qle_bool total_time 0)
  then q <- truediv time_sec total_time ;; Ok (q * 100)
  else Ok 0.

(** [a > b] on floats *)
Definition gt (a b : Q) : bool := negb (Qle_bool a b).

Fixpoint group_speakers (pos : positions) (total_time : Q) (idx : nat)
         (its : list (str * Q)) (st : grouping) : result grouping :=
  match its with
  | [] => Ok st
  | (speaker, time_sec) :: rest =>
    pct <- share time_sec total_time ;;
    group_speakers pos total_time (S idx) rest
      (if (idx =? 0)%nat && gt pct 25 then
         {| added := added st ++ [leader_paragraph pos speaker];
            leader_added := true;
            main_speakers := main_speakers st;
            participants := participants st |}
       else if gt pct 10 then
         {| added := added st;
            leader_added := leader_added st;
            main_speakers := main_speakers st ++ [speaker];
            participants := participants st |}
       else
         {| added := added st;
            leader_added := leader_added st;
            main_speakers := main_speakers st;
            participants := participants st ++ [speaker] |})
  end.

Definition by_time_desc (a b : str * Q) : bool :=
  Qle_bool (- snd a) (- snd b).

(** The blocks of the section of the participants. *)
Definition participant_section (speaker_summary : option speaker_summary)
           (meeting_type_id : Z) : result (list block) :=
  match speaker_summary with
  | None => Ok []
  | Some summary =>
    let speakers_time := speaking_time summary in
    let total_time :=
      match speakers_time with
      | [] => 1
      | _ :: _ => sum (values speakers_time)
      end in
    match speakers_time with
    | [] => Ok []
    | _ :: _ =>
      fallback <- getitem Z.eqb str_of_Z POSITION_TEMPLATES 0%Z ;;
      let pos := get Z.eqb POSITION_TEMPLATES meeting_type_id fallback in
      let heading :=
        Paragraph None
                  [{| run_text := u "1. ผู้เข้าร่วมประชุมและตำแหน่ง";
                      run_bold := true; run_size := Some 14%Z |}] in
      let sorted_speakers := sorted by_time_desc (items speakers_time) in
      st <- group_speakers pos total_time 0 sorted_speakers
              {| added := [heading]; leader_added := false;
                 main_speakers := []; participants := [] |} ;;
      let with_leader :=
        match leader_added st, sorted_speakers with
        | false, (first_speaker, _) :: _ =>
          added st ++ [leader_paragraph pos first_speaker]
        | _, _ => added st
        end in
      let all_others := main_speakers st ++ participants st in
      let with_others :=
        match all_others with
        | [] => with_leader
        | _ :: _ =>
          with_leader
          ++ [Paragraph (Some (u "List Bullet")) [bold (main pos ++ u ":")]]
          ++ map (fun speaker =>
                    Paragraph (Some (u "List Bullet 2")) [plain speaker])
                 all_others
        end in
      Ok (with_others ++ [paragraph_of []])
    end
  end.

(** *** export_summary_to_docx: the summary *)

Definition section_headers : dict str Z := [
  (u "ประเภท", 1%Z);
  (u "ผู้เข้าร่วมประชุม", 1%Z);
  (u "สรุปการประชุม", 1%Z);
  (u "การสั่งงาน", 1%Z);
  (u "มอบหมาย", 1%Z);
  (u "คำถามสำคัญ", 1%Z);
  (u "ข้อตกลง", 1%Z);
  (u "มติ", 1%Z);
  (u "สถานะ", 2%Z);
  (u "ความคืบหน้า", 2%Z);
  (u "ปัญหา", 2%Z);
  (u "แนวทางแก้", 2%Z);
  (u "งานถัดไป", 2%Z);
  (u "นโยบาย", 2%Z);
  (u "การอนุมัติ", 2%Z)
].

(** The class of [emoji_pattern], range by range. *)
Definition in_emoji_class (c : char) : bool :=
  ((128512 <=? c) && (c <=? 128591)
   || (127744 <=? c) && (c <=? 128511)
   || (128640 <=? c) && (c <=? 128767)
   || (127456 <=? c) && (c <=? 127487)
   || (9986 <=? c) && (c <=? 10160)
   || (9410 <=? c) && (c <=? 127569)
   || (129318 <=? c) && (c <=? 129335)
   || (65536 <=? c) && (c <=? 1114111))%N.

Definition remove_emoji (text : str) : str :=
  strip (filter (fun c => negb (in_emoji_class c)) text).

(** [needle in hay] *)
Fixpoint contains (needle hay : str) : bool :=
  startswith needle hay
  || match hay with
     | [] => false
     | _ :: rest => contains needle rest
     end.

Definition get_header_level (text : str) : option Z :=
  let clean_text := remove_emoji text in
  option_map snd
             (find (fun entry => contains (fst entry) clean_text)
                   (items section_headers)).

(** [s.lstrip(c)] and [s.strip(c)] for one character [c]. *)
Fixpoint lstrip_char (c : char) (s : str) : str :=
  match s with
  | [] => []
  | x :: r => if (x =? c)%N then lstrip_char c r else s
  end.

Definition strip_char (c : char) (s : str) : str :=
  rev (lstrip_char c (rev (lstrip_char c s))).

(** The longest run of characters other than [*] at the start. *)
Fixpoint span_not_star (s : str) : str * str :=
  match s with
  | [] => ([], [])
  | c :: t =>
    if (c =? 42)%N then ([], s)
    else let (a, b) := span_not_star t in (c :: a, b)
  end.

(** What the pattern of [_add_formatted_text] (two stars, one or more
    characters other than a star, two stars) matches at the start of
    [s], if it matches there. *)
Definition match_bold (s : str) : option str :=
  match s with
  | 42%N :: 42%N :: t =>
    match span_not_star t with
    | ((_ :: _) as body, 42%N :: 42%N :: _) =>
      Some (42%N :: 42%N :: body ++ [42%N; 42%N])
    | _ => None
    end
  | _ => None
  end.

(** [re.split] of [s] at the matches of that pattern, which are kept
    as parts of their own, read from the left: [skip] characters still
    belong to the last match, [cur] is the text since then, latest
    first. *)
Fixpoint split_bold (skip : nat) (cur : str) (s : str) : list str :=
  match s with
  | [] => [rev cur]
  | c :: t =>
    match skip with
    | S k => split_bold k cur t
    | O =>
      match match_bold s with
      | Some m => rev cur :: m :: split_bold (length m - 1) [] t
      | None => split_bold 0 (c :: cur) t
      end
    end
  end.

(** [part[2:-2]] *)
Definition inner (part : str) : str :=
  firstn (length part - 4) (skipn 2 part).

(** The runs [_add_formatted_text] adds. *)
Definition formatted_runs (text : str) : list run :=
  map (fun part =>
         if startswith (u "**") part && endswith (u "**") part
         then bold (inner part)
         else plain part)
      (split_bold 0 [] text).

(** What one line of the summary adds. *)
Definition line_blocks (raw_line : str) : list block :=
  let line := strip raw_line in
  match line with
  | [] => []
  | _ :: _ =>
    let clean_line := remove_emoji line in
    if startswith (u "**") line && endswith (u "**") line then
      let text := strip (strip_char 42%N line) in
      let clean_text := remove_emoji text in
      match get_header_level text with
      | Some header_level => [Heading clean_text header_level false]
      | None =>
        [Paragraph None [{| run_text := clean_text; run_bold := true;
                            run_size := Some 12%Z |}]]
      end
    else if startswith (u "##") line then
      [Heading (remove_emoji (strip (lstrip_char 35%N line))) 2 false]
    else if startswith (u "#") line then
      [Heading (remove_emoji (strip (lstrip_char 35%N line))) 1 false]
    else if startswith (u "- ") line || startswith (u "• ") line then
      [Paragraph (Some (u "List Bullet"))
                 (formatted_runs (remove_emoji (strip (skipn 2 line))))]
    else
      [Paragraph None (formatted_runs clean_line)]
  end.

Section Summary.
Variable DOCX_AVAILABLE : bool.
Variable save : str -> list block -> option exn.

Definition export_summary_to_docx
           (summary_text output_path : str)
           (speaker_summary : option speaker_summary) (meeting_type_id : Z)
  : result (option (list block) * str) :=
  if negb DOCX_AVAILABLE then
    Ok (None,
        u "Error: python-docx not installed. Run: pip install python-docx")
  else
    section <- participant_section speaker_summary meeting_type_id ;;
    finish save
           ([Heading (u "สรุปการประชุม") 0 true; paragraph_of []]
            ++ section
            ++ flat_map line_blocks (split_on 10%N summary_text))
           output_path.
End Summary.

End ExportUtils.

(* ================================================================= *)
(** ** Further reference descriptions                                 *)
(* ================================================================= *)

Module Spec2.
Import Py Formatting Pipeline SummaryModel Api Spec.



(** A list without its repetitions, each element where it first
    stands. *)
Fixpoint first_seen (l : list str) : list str :=
  match l with
  | [] => []
  | x :: r => x :: filter (fun y => negb (str_eqb y x)) (first_seen r)
  end.

(** The labels of the segments, in their order; a segment whose
    speaker is not taken has none. *)
Fixpoint labels_of (segs : list segment) : list str :=
  match segs with
  | [] => []
  | seg :: rest =>
    match format_speaker (seg_speaker seg) with
    | Ok label => label :: labels_of rest
    | Raise _ => labels_of rest
    end
  end.

(** What [d[k] = v] does to the keys. *)
Definition add_key (ks : list str) (k : str) : list str :=
  if mem k ks then ks else ks ++ [k].

(** Three different segments that start together, given after one
    another around an earlier one. *)
Definition tied_segments : list segment := [
  {| seg_start := 1; seg_end := 2;
     seg_speaker := Some (u "SPEAKER_01"); seg_text := Some (u "b") |};
  {| seg_start := 0; seg_end := 1;
     seg_speaker := None; seg_text := Some (u "a") |};
  {| seg_start := 1; seg_end := 3;
     seg_speaker := Some (u "SPEAKER_00"); seg_text := Some (u "c") |};
  {| seg_start := 1; seg_end := 2;
     seg_speaker := None; seg_text := Some (u "d") |}
].

Definition same_start (q : Q) (seg : segment) : bool :=
  Qeq_bool (seg_start seg) q.

Definition later_le (a b : str * Q) : Prop := snd b <= snd a.

(** *** The combined text of the export *)

(** A run of texts of one speaker put in front of the groups that
    follow: it joins the first of them when that has the same
    speaker. *)
Definition merge (g : str * list str) (gs : list (str * list str))
  : list (str * list str) :=
  match gs with
  | (s, ts) :: gs' =>
    if str_eqb (fst g) s then (fst g, snd g ++ ts) :: gs' else g :: gs
  | [] => [g]
  end.

(** The texts of neighbours with the same speaker, put together. *)
Fixpoint group_adjacent (pairs : list (str * str)) : list (str * list str) :=
  match pairs with
  | [] => []
  | (s, t) :: rest => merge (s, [t]) (group_adjacent rest)
  end.

(** A group, text by text. *)
Definition expand (g : str * list str) : list (str * str) :=
  map (fun t => (fst g, t)) (snd g).

(** No two neighbours have the same speaker. *)
Fixpoint neighbours_differ (gs : list (str * list str)) : Prop :=
  match gs with
  | a :: ((b :: _) as rest) => fst a <> fst b /\ neighbours_differ rest
  | _ => True
  end.

(** The label and the text of a segment. *)
Definition labelled (seg : segment) (pair : str * str) : Prop :=
  format_speaker (seg_speaker seg) = Ok (fst pair) /\ snd pair = text_of seg.

Definition render (g : str * list str) : str :=
  ExportUtils.combined_line (fst g) (snd g).

(** The loop of the combined text on labels and texts. *)
Definition absorb (st : ExportUtils.combining) (pair : str * str)
  : ExportUtils.combining :=
  if match ExportUtils.current_speaker st with
     | Some current => str_eqb (fst pair) current
     | None => false
     end
  then {| ExportUtils.combined_lines := ExportUtils.combined_lines st;
          ExportUtils.current_speaker := ExportUtils.current_speaker st;
          ExportUtils.current_text := ExportUtils.current_text st ++ [snd pair] |}
  else {| ExportUtils.combined_lines := ExportUtils.flush st;
          ExportUtils.current_speaker := Some (fst pair);
          ExportUtils.current_text := [snd pair] |}.

(** A line of the summary that is not blank. *)
Definition not_blank (line : str) : bool :=
  match strip line with
  | [] => false
  | _ :: _ => true
  end.

Definition not_star (c : char) : bool := negb (c =? 42)%N.

(** The formatter is the one of [app.utils.formatting], given or by
    default. *)
Definition default_formatter
           (format_speaker_func : option (option str -> result str)) : Prop :=
  format_speaker_func = None \/ format_speaker_func = Some format_speaker.


(** *** The participants of the summary *)








End Spec2.

(* ================================================================= *)
(** ** Facts about the run time                                       *)
(* ================================================================= *)

Import Py Formatting Pipeline SummaryModel Api Spec.
Local Open Scope py_scope.

Ltac n_bool :=
  repeat match goal with
         | H : _ /\ _ |- _ => destruct H
         end;
  repeat first
         [ rewrite orb_false_iff | rewrite andb_false_iff
         | rewrite andb_true_iff | rewrite orb_true_iff
         | rewrite N.leb_le | rewrite N.leb_gt
         | rewrite N.eqb_eq | rewrite N.eqb_neq
         | rewrite N.ltb_lt | rewrite N.ltb_ge ];
  try lia.






(* ================================================================= *)
(** ** format_speaker                                                 *)
(* ================================================================= *)





(* ================================================================= *)
(** ** format_time                                                    *)
(* ================================================================= *)

Lemma Qfloor_unique (n : Z) (x : Q) :
  inject_Z n <= x -> x < inject_Z (n + 1) -> Qfloor x = n.
Proof.
  intros L U.
  pose proof (Qfloor_le x) as L'. pose proof (Qlt_floor x) as U'.
  assert (A : inject_Z n < inject_Z (Qfloor x + 1))
    by (eapply Qle_lt_trans; eauto).
  assert (B : inject_Z (Qfloor x) < inject_Z (n + 1))
    by (eapply Qle_lt_trans; eauto).
  rewrite <- Zlt_Qlt in A, B. lia.
Qed.

Lemma Qfloor_sub_Z (x : Q) (k : Z) :
  Qfloor (x - inject_Z k) = (Qfloor x - k)%Z.
Proof.
  apply Qfloor_unique.
  - pose proof (Qfloor_le x). unfold Z.sub.
    rewrite inject_Z_plus, inject_Z_opp. lra.
  - pose proof (Qlt_floor x) as U.
    replace (Qfloor x - k + 1)%Z with ((Qfloor x + 1) + - k)%Z by lia.
    rewrite inject_Z_plus, inject_Z_opp. lra.
Qed.

Lemma Qfloor_div_pos (x : Q) (k : positive) :
  Qfloor (x / inject_Z (Zpos k)) = (Qfloor x / Zpos k)%Z.
Proof.
  destruct x as [n d]. unfold Qdiv, Qinv, Qmult, inject_Z, Qfloor. simpl.
  rewrite Z.mul_1_r, Pos2Z.inj_mul. now rewrite Z.div_div by lia.
Qed.

Lemma int_of_float_floor (x : Q) :
  (0 <= Qfloor x)%Z -> int_of_float x = Qfloor x.
Proof.
  intros H. unfold int_of_float.
  assert (P : 0 <= x).
  { apply Qle_trans with (inject_Z (Qfloor x)); [|apply Qfloor_le].
    change 0 with (inject_Z 0). now rewrite <- Zle_Qle. }
  apply Qle_bool_iff in P. now rewrite P.
Qed.

Lemma Qfloor_nonneg (x : Q) : 0 <= x -> (0 <= Qfloor x)%Z.
Proof.
  intros H. change 0%Z with (Qfloor 0). now apply Qfloor_resp_le.
Qed.

Unset Implicit Arguments.

(** *** Powers of two *)

Lemma two_pow_pos (z : Z) : 0 < 2 ^ z.
Proof. apply Qpower_0_lt. reflexivity. Qed.

Lemma two_pow_plus (a b : Z) : 2 ^ (a + b) == 2 ^ a * 2 ^ b.
Proof. apply Qpower_plus. discriminate. Qed.

Lemma two_pow_inject (n : Z) : (0 <= n)%Z -> 2 ^ n == inject_Z (2 ^ n).
Proof. intros H. symmetry. apply (Zpower_Qpower 2 n H). Qed.

Lemma two_pow_le (a b : Z) : (a <= b)%Z -> 2 ^ a <= 2 ^ b.
Proof. intros H. apply Qpower_le_compat_l; [exact H | discriminate]. Qed.

Lemma two_pow_lt (a b : Z) : (a < b)%Z -> 2 ^ a < 2 ^ b.
Proof. intros H. apply Qpower_lt_compat_l; [exact H | reflexivity]. Qed.

Lemma two_pow_lt_inv (a b : Z) : 2 ^ a < 2 ^ b -> (a < b)%Z.
Proof. intros H. apply (Qpower_lt_compat_l_inv 2); [exact H | reflexivity]. Qed.

Lemma two_pow_scale (a b : Z) : 2 ^ a / 2 ^ b == 2 ^ (a - b).
Proof. symmetry. apply Qpower_minus. discriminate. Qed.

(** *** The exponent of a positive number *)

Lemma Qmake_shift_le (c : Q) (a : Z) (b : positive) :
  c * inject_Z (Zpos b) <= inject_Z a -> c <= a # b.
Proof.
  intros H. rewrite (Qmake_Qdiv a b). apply Qle_shift_div_l; [reflexivity|].
  exact H.
Qed.

Lemma Qmake_shift_lt (c : Q) (a : Z) (b : positive) :
  inject_Z a < c * inject_Z (Zpos b) -> a # b < c.
Proof.
  intros H. rewrite (Qmake_Qdiv a b). apply Qlt_shift_div_r; [reflexivity|].
  exact H.
Qed.

Lemma ilog2_spec (q : Q) :
  0 < q -> 2 ^ ilog2 q <= q /\ q < 2 ^ (ilog2 q + 1).
Proof.
  destruct q as [a b]. intros P.
  assert (Pa : (0 < a)%Z).
  { unfold Qlt in P. cbn in P. lia. }
  unfold ilog2. cbn [Qnum Qden].
  set (la := Z.log2 a). set (lb := Z.log2 (Z.pos b)).
  destruct (Z.log2_spec a Pa) as [A1 A2]. fold la in A1, A2.
  destruct (Z.log2_spec (Z.pos b) eq_refl) as [B1 B2]. fold lb in B1, B2.
  assert (La : (0 <= la)%Z) by apply Z.log2_nonneg.
  assert (Lb : (0 <= lb)%Z) by apply Z.log2_nonneg.
  assert (QA1 : 2 ^ la <= inject_Z a).
  { rewrite two_pow_inject by exact La. rewrite <- Zle_Qle. exact A1. }
  assert (QA2 : inject_Z a < 2 ^ (la + 1)).
  { rewrite two_pow_inject by lia. rewrite <- Zlt_Qlt.
    unfold Z.succ in A2. exact A2. }
  assert (QB1 : 2 ^ lb <= inject_Z (Z.pos b)).
  { rewrite two_pow_inject by exact Lb. rewrite <- Zle_Qle. exact B1. }
  assert (QB2 : inject_Z (Z.pos b) < 2 ^ (lb + 1)).
  { rewrite two_pow_inject by lia. rewrite <- Zlt_Qlt.
    unfold Z.succ in B2. exact B2. }
  assert (U : a # b < 2 ^ (la - lb + 1)).
  { apply Qmake_shift_lt.
    apply Qlt_le_trans with (2 ^ (la + 1)); [exact QA2|].
    replace (la + 1)%Z with ((la - lb + 1) + lb)%Z by lia.
    rewrite two_pow_plus. apply Qmult_le_l; [apply two_pow_pos | exact QB1]. }
  assert (L : 2 ^ (la - lb - 1) <= a # b).
  { apply Qmake_shift_le.
    apply Qle_trans with (2 ^ la); [|exact QA1].
    replace la with ((la - lb - 1) + (lb + 1))%Z at 2 by lia.
    rewrite two_pow_plus. apply Qmult_le_l; [apply two_pow_pos|].
    apply Qlt_le_weak. exact QB2. }
  destruct (Qle_bool (2 ^ (la - lb)) (a # b)) eqn:C.
  - apply Qle_bool_iff in C. split; [exact C | exact U].
  - split; [exact L|].
    replace (la - lb - 1 + 1)%Z with (la - lb)%Z by lia.
    apply Qnot_le_lt. intros H. apply Qle_bool_iff in H. congruence.
Qed.

Lemma ilog2_unique (q : Q) (e : Z) :
  2 ^ e <= q -> q < 2 ^ (e + 1) -> ilog2 q = e.
Proof.
  intros L U.
  assert (P : 0 < q) by (eapply Qlt_le_trans; [apply two_pow_pos | exact L]).
  destruct (ilog2_spec q P) as [L' U'].
  assert (A : (ilog2 q < e + 1)%Z).
  { apply two_pow_lt_inv. eapply Qle_lt_trans; [exact L' | exact U]. }
  assert (B : (e < ilog2 q + 1)%Z).
  { apply two_pow_lt_inv. eapply Qle_lt_trans; [exact L | exact U']. }
  lia.
Qed.

(** *** Rounding to the nearest integer *)

Lemma rne_floor (t : Q) : (Qfloor t <= rne t <= Qfloor t + 1)%Z.
Proof.
  unfold rne.
  destruct (Qle_bool (t - inject_Z (Qfloor t)) (1 # 2));
    [destruct (Qle_bool (1 # 2) (t - inject_Z (Qfloor t)));
     [destruct (Z.even (Qfloor t))|]|]; lia.
Qed.

Lemma rne_ge (t : Q) (i : Z) : inject_Z i <= t -> (i <= rne t)%Z.
Proof.
  intros H. pose proof (rne_floor t) as R.
  apply Qfloor_resp_le in H. rewrite Qfloor_Z in H. lia.
Qed.

Lemma rne_le (t : Q) (i : Z) : t <= inject_Z i -> (rne t <= i)%Z.
Proof.
  intros H. pose proof (rne_floor t) as R.
  pose proof (Qfloor_le t) as F.
  assert (FI : (Qfloor t <= i)%Z).
  { rewrite Zle_Qle. eapply Qle_trans; [exact F | exact H]. }
  destruct (Z.eq_dec (Qfloor t) i) as [E | N]; [|lia].
  unfold rne.
  assert (D : t - inject_Z (Qfloor t) <= 0) by (rewrite E; lra).
  destruct (Qle_bool (t - inject_Z (Qfloor t)) (1 # 2)) eqn:A.
  - destruct (Qle_bool (1 # 2) (t - inject_Z (Qfloor t))) eqn:B; [|lia].
    apply Qle_bool_iff in B. lra.
  - assert (A' : Qle_bool (t - inject_Z (Qfloor t)) (1 # 2) = true)
      by (apply Qle_bool_iff; lra).
    congruence.
Qed.

Lemma rne_below_half (t : Q) (i : Z) :
  t < inject_Z i - (1 # 2) -> (rne t <= i - 1)%Z.
Proof.
  intros H. pose proof (rne_floor t) as R.
  pose proof (Qfloor_le t) as F.
  assert (FI : (Qfloor t < i)%Z).
  { rewrite Zlt_Qlt. lra. }
  destruct (Z.eq_dec (Qfloor t) (i - 1)) as [E | N]; [|lia].
  unfold rne.
  assert (D : t - inject_Z (Qfloor t) < 1 # 2).
  { rewrite E. unfold Z.sub. rewrite inject_Z_plus.
    change (inject_Z (- (1))) with (- (1)). lra. }
  destruct (Qle_bool (t - inject_Z (Qfloor t)) (1 # 2)) eqn:A.
  - destruct (Qle_bool (1 # 2) (t - inject_Z (Qfloor t))) eqn:B; [|lia].
    apply Qle_bool_iff in B. lra.
  - assert (A' : Qle_bool (t - inject_Z (Qfloor t)) (1 # 2) = true)
      by (apply Qle_bool_iff; lra).
    congruence.
Qed.

Lemma rne_int (t : Q) (i : Z) : t == inject_Z i -> rne t = i.
Proof.
  intros H. apply Z.le_antisymm.
  - apply rne_le. rewrite H. apply Qle_refl.
  - apply rne_ge. rewrite H. apply Qle_refl.
Qed.

(** *** Rounding to binary64 *)

Lemma round64_zero (q : Q) : q == 0 -> round64 q = 0.
Proof.
  intros H. unfold round64.
  now replace (Qeq_bool q 0) with true by (symmetry; now apply Qeq_bool_iff).
Qed.

Lemma round64_pos (q : Q) :
  0 < q ->
  round64 q
  == inject_Z (rne (q / 2 ^ Z.max (ilog2 q - 52) (-1074)))
     * 2 ^ Z.max (ilog2 q - 52) (-1074).
Proof.
  intros P. unfold round64.
  assert (N : Qeq_bool q 0 = false).
  { destruct (Qeq_bool q 0) eqn:E; [|reflexivity].
    apply Qeq_bool_iff in E. rewrite E in P. discriminate. }
  rewrite N.
  assert (L : Qle_bool 0 q = true) by (apply Qle_bool_iff; lra).
  rewrite L.
  assert (A : Qabs q = q).
  { destruct q as [a b]. unfold Qlt in P. cbn in P. unfold Qabs.
    f_equal. lia. }
  rewrite A. ring.
Qed.

Lemma int_scale (n x : Z) :
  (x <= 0)%Z -> inject_Z n / 2 ^ x == inject_Z (n * 2 ^ (- x)).
Proof.
  intros H. rewrite inject_Z_mult, <- (two_pow_inject (- x)) by lia.
  replace x with (- - x)%Z at 1 by lia. rewrite Qpower_opp.
  field. apply Qpower_not_0. discriminate.
Qed.

Lemma small_exponent (q : Q) :
  0 < q -> q < 2 ^ 53 -> (Z.max (ilog2 q - 52) (-1074) <= 0)%Z.
Proof.
  intros P U. destruct (ilog2_spec q P) as [L _].
  assert (E : (ilog2 q < 53)%Z).
  { apply two_pow_lt_inv. eapply Qle_lt_trans; [exact L | exact U]. }
  lia.
Qed.

(** Rounding does not cross an integer (below [2 ^ 53]). *)
Lemma round64_ge_int (q : Q) (n : Z) :
  0 <= q -> q < 2 ^ 53 -> inject_Z n <= q -> inject_Z n <= round64 q.
Proof.
  intros P U H.
  destruct (Qeq_dec q 0) as [Z0 | NZ].
  - rewrite (round64_zero q Z0). now rewrite <- Z0.
  - assert (P' : 0 < q) by (apply Qle_lt_or_eq in P; destruct P as [P|P];
                            [exact P | now elim NZ]).
    rewrite (round64_pos q P').
    set (x := Z.max (ilog2 q - 52) (-1074)).
    assert (X : (x <= 0)%Z) by (apply small_exponent; assumption).
    pose proof (two_pow_pos x) as Px.
    assert (I : inject_Z (n * 2 ^ (- x)) <= q / 2 ^ x).
    { rewrite <- (int_scale n x X).
      apply Qmult_le_compat_r; [exact H|].
      apply Qlt_le_weak, Qinv_lt_0_compat, Px. }
    apply rne_ge in I. rewrite Zle_Qle in I.
    apply Qle_trans with (inject_Z (n * 2 ^ (- x)) * 2 ^ x).
    + rewrite <- (int_scale n x X). apply Qle_lteq. right. field.
      apply Qpower_not_0. discriminate.
    + apply Qmult_le_compat_r; [exact I | now apply Qlt_le_weak].
Qed.

Lemma round64_le_int (q : Q) (n : Z) :
  0 <= q -> q < 2 ^ 53 -> q <= inject_Z n -> round64 q <= inject_Z n.
Proof.
  intros P U H.
  destruct (Qeq_dec q 0) as [Z0 | NZ].
  - rewrite (round64_zero q Z0). now rewrite <- Z0.
  - assert (P' : 0 < q) by (apply Qle_lt_or_eq in P; destruct P as [P|P];
                            [exact P | now elim NZ]).
    rewrite (round64_pos q P').
    set (x := Z.max (ilog2 q - 52) (-1074)).
    assert (X : (x <= 0)%Z) by (apply small_exponent; assumption).
    pose proof (two_pow_pos x) as Px.
    assert (I : q / 2 ^ x <= inject_Z (n * 2 ^ (- x))).
    { rewrite <- (int_scale n x X).
      apply Qmult_le_compat_r; [exact H|].
      apply Qlt_le_weak, Qinv_lt_0_compat, Px. }
    apply rne_le in I. rewrite Zle_Qle in I.
    apply Qle_trans with (inject_Z (n * 2 ^ (- x)) * 2 ^ x).
    + apply Qmult_le_compat_r; [exact I | now apply Qlt_le_weak].
    + rewrite <- (int_scale n x X). apply Qle_lteq. right. field.
      apply Qpower_not_0. discriminate.
Qed.

(** A number with at most 53 significant bits and a last place of
    [2 ^ -1074] or more is left as it is. *)
Lemma round64_exact (q : Q) (n j : Z) :
  (0 < n < 2 ^ 53)%Z -> (-1074 <= j)%Z -> q == inject_Z n * 2 ^ j ->
  round64 q == q.
Proof.
  intros [N0 N1] J E.
  assert (P : 0 < q).
  { rewrite E. apply Qmult_lt_0_compat; [|apply two_pow_pos].
    change 0 with (inject_Z 0). now rewrite <- Zlt_Qlt. }
  rewrite (round64_pos q P).
  set (x := Z.max (ilog2 q - 52) (-1074)).
  destruct (ilog2_spec q P) as [L _].
  assert (U : q < 2 ^ (53 + j)).
  { rewrite E, two_pow_plus. apply Qmult_lt_compat_r; [apply two_pow_pos|].
    rewrite (two_pow_inject 53) by lia. now rewrite <- Zlt_Qlt. }
  assert (X : (x <= j)%Z).
  { assert (A : (ilog2 q < 53 + j)%Z)
      by (apply two_pow_lt_inv; eapply Qle_lt_trans; [exact L | exact U]).
    unfold x. lia. }
  assert (T : q / 2 ^ x == inject_Z (n * 2 ^ (j - x))).
  { rewrite E, inject_Z_mult, <- (two_pow_inject (j - x)) by lia.
    rewrite <- two_pow_scale. field. apply Qpower_not_0. discriminate. }
  rewrite (rne_int _ _ T), <- T. field. apply Qpower_not_0. discriminate.
Qed.

Lemma round64_int (n : Z) :
  (0 <= n < 2 ^ 53)%Z -> round64 (inject_Z n) == inject_Z n.
Proof.
  intros [N0 N1]. destruct (Z.eq_dec n 0) as [-> | NZ]; [reflexivity|].
  apply (round64_exact (inject_Z n) n 0); [lia | lia |].
  change (2 ^ 0) with 1. ring.
Qed.

(** The product of 100 and a float below 1 is rounded to less than
    100. *)
Lemma round64_below_100 (q : Q) :
  0 <= q -> q < 100 - / 2 ^ 47 -> round64 q < 100.
Proof.
  intros P U.
  assert (P47 : 0 < / 2 ^ 47) by (apply Qinv_lt_0_compat, two_pow_pos).
  destruct (Qlt_le_dec q 64) as [S | B].
  - apply Qle_lt_trans with (inject_Z 64); [|reflexivity].
    apply round64_le_int; [exact P | | now apply Qlt_le_weak].
    eapply Qlt_trans; [exact S|]. reflexivity.
  - assert (E : ilog2 q = 6%Z).
    { apply ilog2_unique; [exact B|].
      eapply Qlt_trans; [exact U|]. 
      apply Qlt_trans with 100; [lra | reflexivity]. }
    assert (Pq : 0 < q) by lra.
    rewrite (round64_pos q Pq), E.
    change (Z.max (6 - 52) (-1074)) with (-46)%Z.
    assert (T : q / 2 ^ (-46) < inject_Z (100 * 2 ^ 46) - (1 # 2)).
    { apply Qlt_shift_div_r; [reflexivity|].
      eapply Qlt_le_trans; [exact U|]. apply Qle_lteq. right.
      vm_compute. reflexivity. }
    apply rne_below_half in T. rewrite Zle_Qle in T.
    apply Qle_lt_trans with (inject_Z (100 * 2 ^ 46 - 1) * 2 ^ (-46)).
    + apply Qmult_le_compat_r; [exact T | discriminate].
    + reflexivity.
Qed.

(** *** The float operations on times that are not negative *)

Lemma int_of_float_comp (x y : Q) : x == y -> int_of_float x = int_of_float y.
Proof.
  intros E. unfold int_of_float.
  assert (B : Qle_bool 0 x = Qle_bool 0 y).
  { destruct (Qle_bool 0 x) eqn:X, (Qle_bool 0 y) eqn:Y; try reflexivity.
    - apply Qle_bool_iff in X. rewrite E in X. apply Qle_bool_iff in X.
      congruence.
    - apply Qle_bool_iff in Y. rewrite <- E in Y. apply Qle_bool_iff in Y.
      congruence. }
  rewrite B. destruct (Qle_bool 0 y);
    [now apply Qfloor_comp | now apply Qceiling_comp].
Qed.

Lemma round64_rep (q : Q) (n j : Z) :
  (0 <= n < 2 ^ 53)%Z -> (-1074 <= j)%Z -> q == inject_Z n * 2 ^ j ->
  round64 q == q.
Proof.
  intros [N0 N1] J E. destruct (Z.eq_dec n 0) as [-> | NZ].
  - assert (Z0 : q == 0) by (rewrite E; ring).
    rewrite (round64_zero q Z0). now symmetry.
  - apply (round64_exact q n j); [lia | exact J | exact E].
Qed.

(** [fmod(x, k)] of C for [x] not negative and a positive integer
    [k]. *)
Lemma c_fmod_nonneg (x : Q) (k : positive) :
  0 <= x ->
  c_fmod x (inject_Z (Zpos k))
  == x - inject_Z (Zpos k * (Qfloor x / Zpos k))
  /\ 0 <= c_fmod x (inject_Z (Zpos k))
  /\ c_fmod x (inject_Z (Zpos k)) < inject_Z (Zpos k).
Proof.
  intros P. unfold c_fmod.
  assert (F : int_of_float (x / inject_Z (Zpos k)) = (Qfloor x / Zpos k)%Z).
  { rewrite int_of_float_floor; rewrite Qfloor_div_pos; [reflexivity|].
    apply Z.div_pos; [now apply Qfloor_nonneg | lia]. }
  rewrite F.
  assert (E : x - inject_Z (Z.pos k) * inject_Z (Qfloor x / Z.pos k)
              == x - inject_Z (Zpos k * (Qfloor x / Zpos k)))
    by (rewrite inject_Z_mult; reflexivity).
  split; [exact E|]. rewrite E.
  pose proof (Qfloor_le x) as L. pose proof (Qlt_floor x) as U.
  pose proof (Z.div_mod (Qfloor x) (Zpos k) ltac:(lia)) as D.
  pose proof (Z.mod_pos_bound (Qfloor x) (Zpos k) ltac:(lia)) as B.
  assert (A : inject_Z (Zpos k * (Qfloor x / Zpos k))
              == inject_Z (Qfloor x) - inject_Z (Qfloor x mod Zpos k)).
  { rewrite D at 2. rewrite inject_Z_plus. ring. }
  rewrite A.
  assert (B0 : 0 <= inject_Z (Qfloor x mod Zpos k))
    by (change 0 with (inject_Z 0); rewrite <- Zle_Qle; lia).
  assert (B1 : inject_Z (Qfloor x mod Zpos k) + 1 <= inject_Z (Zpos k)).
  { change 1 with (inject_Z 1). rewrite <- inject_Z_plus, <- Zle_Qle. lia. }
  rewrite inject_Z_plus in U. change (inject_Z 1) with 1 in U.
  split; lra.
Qed.

Lemma fmod_nonneg (x : Q) (k : positive) :
  0 <= x -> fmod x (inject_Z (Zpos k)) = c_fmod x (inject_Z (Zpos k)).
Proof.
  intros P. unfold fmod.
  destruct (c_fmod_nonneg x k P) as (_ & L & _).
  unfold differ_in_sign.
  apply Qle_bool_iff in L. rewrite L.
  replace (Qle_bool 0 (inject_Z (Z.pos k))) with true by reflexivity.
  cbn [negb Bool.eqb]. now rewrite andb_false_r.
Qed.

(** The seconds: [int(x % 60)]. *)
Lemma seconds_field (x : Q) :
  0 <= x -> int_of_float (fmod x 60) = (Qfloor x mod 60)%Z.
Proof.
  intros P. change (60 : Q) with (inject_Z (Zpos 60)).
  rewrite (fmod_nonneg x 60 P).
  destruct (c_fmod_nonneg x 60 P) as (E & L & _).
  rewrite (int_of_float_comp _ _ E).
  pose proof (Z.div_mod (Qfloor x) 60 ltac:(lia)) as D.
  pose proof (Z.mod_pos_bound (Qfloor x) 60 ltac:(lia)) as B.
  assert (F : Qfloor (x - inject_Z (60 * (Qfloor x / 60)))
              = (Qfloor x mod 60)%Z) by (rewrite Qfloor_sub_Z; lia).
  rewrite int_of_float_floor; rewrite F; [reflexivity | lia].
Qed.

(** The minutes: [int(x // 60)], below [2 ^ 55] seconds. *)
Lemma minutes_field (x : Q) :
  0 <= x -> x < 2 ^ 55 ->
  floordiv x 60 == inject_Z (Qfloor x / 60)
  /\ int_of_float (floordiv x 60) = (Qfloor x / 60)%Z.
Proof.
  intros P U.
  assert (G : floordiv x 60 == inject_Z (Qfloor x / 60)).
  { change (60 : Q) with (inject_Z (Zpos 60)). unfold floordiv.
    destruct (c_fmod_nonneg x 60 P) as (E & L & _).
    set (m := c_fmod x (inject_Z 60)) in *.
    set (K := (Qfloor x / 60)%Z) in *.
    assert (K0 : (0 <= K)%Z)
      by (apply Z.div_pos; [now apply Qfloor_nonneg | lia]).
    assert (K1 : (15 * K < 2 ^ 53)%Z).
    { pose proof (Qfloor_le x) as Fl.
      assert (X : (Qfloor x < 2 ^ 55)%Z).
      { rewrite Zlt_Qlt. eapply Qle_lt_trans; [exact Fl|].
        now rewrite <- (two_pow_inject 55) by lia. }
      pose proof (Z.mul_div_le (Qfloor x) 60 ltac:(lia)) as D.
      fold K in D. change (2 ^ 55)%Z with 36028797018963968%Z in X.
      change (2 ^ 53)%Z with 9007199254740992%Z. lia. }
    assert (S : x - m == inject_Z (15 * K) * 2 ^ 2).
    { rewrite E. change (2 ^ 2) with 4. rewrite !inject_Z_mult.
      change (inject_Z 60) with 60. change (inject_Z 15) with 15. ring. }
    assert (R1 : round64 (x - m) == x - m)
      by (apply (round64_rep _ (15 * K) 2); [lia | lia | exact S]).
    assert (Q1 : round64 (x - m) / inject_Z 60 == inject_Z K * 2 ^ 0).
    { rewrite R1, S. change (2 ^ 2) with 4. change (2 ^ 0) with 1.
      rewrite inject_Z_mult. change (inject_Z 15) with 15.
      change (inject_Z 60) with 60. field. }
    assert (K2 : (0 <= K < 2 ^ 53)%Z)
      by (change (2 ^ 53)%Z with 9007199254740992%Z in *; lia).
    assert (R2 : round64 (round64 (x - m) / inject_Z 60) == inject_Z K).
    { rewrite (round64_rep _ K 0 K2 ltac:(lia) Q1), Q1.
      change (2 ^ 0) with 1. ring. }
    assert (C : differ_in_sign (inject_Z 60) m = false).
    { unfold differ_in_sign. apply Qle_bool_iff in L. rewrite L.
      reflexivity. }
    rewrite C, andb_false_r.
    set (div := round64 (round64 (x - m) / inject_Z 60)) in *.
    destruct (Qeq_bool div 0) eqn:Z0; cbn [negb].
    - apply Qeq_bool_iff in Z0. rewrite <- R2. now symmetry.
    - assert (Fd : Qfloor div = K)
        by (rewrite (Qfloor_comp _ _ R2); apply Qfloor_Z).
      rewrite Fd.
      assert (D0 : div - inject_Z K == 0) by (rewrite R2; ring).
      rewrite (round64_zero _ D0). reflexivity. }
  split; [exact G|].
  rewrite (int_of_float_comp _ _ G).
  rewrite int_of_float_floor; rewrite Qfloor_Z; [reflexivity|].
  apply Z.div_pos; [now apply Qfloor_nonneg | lia].
Qed.

(** A positive binary64 number is an integer of at most 53 bits times
    a power of two. *)
Lemma binary64_form (q : Q) :
  0 < q -> round64 q == q ->
  exists n x : Z,
    (0 < n <= 2 ^ 53)%Z /\ (-1074 <= x)%Z /\ q == inject_Z n * 2 ^ x.
Proof.
  intros P R. rewrite (round64_pos q P) in R.
  set (x := Z.max (ilog2 q - 52) (-1074)) in *.
  set (n := rne (q / 2 ^ x)) in *.
  exists n, x.
  assert (E : q == inject_Z n * 2 ^ x) by now symmetry.
  pose proof (two_pow_pos x) as Px.
  split; [|split; [unfold x; lia | exact E]].
  split.
  - assert (A : 0 < inject_Z n).
    { destruct (Qlt_le_dec 0 (inject_Z n)) as [A | A]; [exact A|].
      exfalso. rewrite E in P.
      assert (B : inject_Z n * 2 ^ x <= 0 * 2 ^ x)
        by (apply Qmult_le_compat_r; [exact A | now apply Qlt_le_weak]).
      lra. }
    change 0 with (inject_Z 0) in A. now rewrite <- Zlt_Qlt in A.
  - unfold n. apply rne_le.
    destruct (ilog2_spec q P) as [_ U].
    rewrite <- (two_pow_inject 53) by lia.
    apply Qle_shift_div_r; [exact Px|].
    rewrite <- two_pow_plus.
    apply Qle_trans with (2 ^ (ilog2 q + 1)); [now apply Qlt_le_weak|].
    apply two_pow_le. unfold x. lia.
Qed.

(** The fractional part of a binary64 number that is not negative is
    at most [1 - 2 ^ -53]. *)
Lemma frac_bound (x : Q) :
  0 <= x -> round64 x == x -> x - inject_Z (Qfloor x) <= 1 - / 2 ^ 53.
Proof.
  intros P R.
  pose proof (Qfloor_le x) as Fl. pose proof (Qlt_floor x) as Fu.
  rewrite inject_Z_plus in Fu. change (inject_Z 1) with 1 in Fu.
  assert (T : 0 < / 2 ^ 53) by (apply Qinv_lt_0_compat, two_pow_pos).
  assert (H1 : / 2 ^ 53 <= 1 # 2) by discriminate.
  set (t := / 2 ^ 53) in *.
  destruct (Qeq_dec x 0) as [Z0 | NZ].
  { rewrite (Qfloor_comp _ _ Z0), Z0.
    change (inject_Z (Qfloor 0)) with 0. lra. }
  assert (P' : 0 < x) by (apply Qle_lt_or_eq in P; destruct P as [P|P];
                          [exact P | now elim NZ]).
  destruct (binary64_form x P' R) as (n & e & [N0 N1] & E0 & E).
  destruct (Z_lt_le_dec e 0) as [Neg | Pos].
  - destruct (Z_lt_le_dec e (-53)) as [Tiny | Mid].
    + (* x <= 1/2 *)
      assert (X : x <= 1 # 2).
      { rewrite E. apply Qle_trans with (inject_Z (2 ^ 53) * 2 ^ e).
        - apply Qmult_le_compat_r; [now rewrite <- Zle_Qle|].
          apply Qlt_le_weak, two_pow_pos.
        - rewrite <- (two_pow_inject 53), <- two_pow_plus by lia.
          apply Qle_trans with (2 ^ (-1)); [apply two_pow_le; lia|].
          discriminate. }
      assert (F0 : 0 <= inject_Z (Qfloor x)).
      { change 0 with (inject_Z 0). rewrite <- Zle_Qle.
        now apply Qfloor_nonneg. }
      lra.
    + (* the fraction is a multiple of 2 ^ e *)
      set (k := (- e)%Z).
      assert (K : (0 < k <= 53)%Z) by (unfold k; lia).
      assert (S : x * 2 ^ k == inject_Z n).
      { rewrite E. unfold k. rewrite <- Qmult_assoc, <- two_pow_plus.
        replace (e + - e)%Z with 0%Z by lia. change (2 ^ 0) with 1. ring. }
      set (J := (n - Qfloor x * 2 ^ k)%Z).
      assert (FJ : (x - inject_Z (Qfloor x)) * 2 ^ k == inject_Z J).
      { unfold J. unfold Z.sub. rewrite inject_Z_plus, inject_Z_opp.
        rewrite inject_Z_mult, <- (two_pow_inject k) by lia.
        rewrite <- S. ring. }
      pose proof (two_pow_pos k) as Pk.
      assert (JU : inject_Z J < 2 ^ k).
      { rewrite <- FJ. rewrite <- (Qmult_1_l (2 ^ k)) at 2.
        apply Qmult_lt_compat_r; [exact Pk | lra]. }
      rewrite (two_pow_inject k) in JU by lia. rewrite <- Zlt_Qlt in JU.
      assert (JL : inject_Z J <= inject_Z (2 ^ k) - 1).
      { change 1 with (inject_Z 1). unfold Qminus.
        rewrite <- inject_Z_opp, <- inject_Z_plus, <- Zle_Qle. lia. }
      rewrite <- (two_pow_inject k) in JL by lia. rewrite <- FJ in JL.
      assert (B : x - inject_Z (Qfloor x) <= 1 - / 2 ^ k).
      { apply Qle_trans with (((x - inject_Z (Qfloor x)) * 2 ^ k) / 2 ^ k).
        - apply Qle_lteq. right. field. apply Qpower_not_0. discriminate.
        - apply Qle_trans with ((2 ^ k - 1) / 2 ^ k).
          + apply Qmult_le_compat_r; [exact JL|].
            apply Qlt_le_weak, Qinv_lt_0_compat, Pk.
          + apply Qle_lteq. right. field. apply Qpower_not_0. discriminate. }
      assert (I : t <= / 2 ^ k).
      { unfold t. rewrite <- !Qpower_opp. apply two_pow_le. lia. }
      set (tk := / 2 ^ k) in *. lra.
  - (* an integer *)
    assert (I : x == inject_Z (n * 2 ^ e))
      by (rewrite E, inject_Z_mult, <- (two_pow_inject e) by lia; reflexivity).
    rewrite (Qfloor_comp _ _ I), Qfloor_Z, I. lra.
Qed.

(** The hundredths: [int((x % 1) * 100)]. *)
Lemma hundredths_field (x : Q) :
  0 <= x -> round64 x == x ->
  let F := Qfloor ((x - inject_Z (Qfloor x)) * 100) in
  let C := int_of_float (fmul (fmod x 1) 100) in
  0 <= fmul (fmod x 1) 100 /\ (0 <= C <= 99)%Z /\ (F <= C <= F + 1)%Z.
Proof.
  intros P R F C.
  pose proof (frac_bound x P R) as B.
  pose proof (Qfloor_le x) as Fl.
  assert (E : fmod x 1 == x - inject_Z (Qfloor x)).
  { change (1 : Q) with (inject_Z (Zpos 1)). rewrite (fmod_nonneg x 1 P).
    destruct (c_fmod_nonneg x 1 P) as (E & _). rewrite E.
    now rewrite Z.div_1_r, Z.mul_1_l. }
  unfold C, fmul. set (y := fmod x 1 * 100).
  assert (Y : y == (x - inject_Z (Qfloor x)) * 100)
    by (unfold y; rewrite E; reflexivity).
  assert (T1 : / 2 ^ 47 < 100 * / 2 ^ 53) by reflexivity.
  assert (Y0 : 0 <= y) by (rewrite Y; lra).
  assert (Y1 : y < 100 - / 2 ^ 47).
  { rewrite Y. set (t := / 2 ^ 53) in *. set (t' := / 2 ^ 47) in *. lra. }
  assert (T2 : 0 < / 2 ^ 47) by reflexivity.
  assert (Y2 : y < 2 ^ 53).
  { apply Qlt_trans with 100; [|reflexivity].
    set (t' := / 2 ^ 47) in *. lra. }
  pose proof (round64_below_100 y Y0 Y1) as U.
  pose proof (round64_ge_int y 0 Y0 Y2 Y0) as L.
  change (inject_Z 0) with 0 in L.
  assert (FY : Qfloor y = F) by (apply Qfloor_comp; exact Y).
  pose proof (Qfloor_le y) as A1. pose proof (Qlt_floor y) as A2.
  rewrite FY in A1, A2.
  pose proof (round64_ge_int y F Y0 Y2 A1) as G1.
  pose proof (round64_le_int y (F + 1) Y0 Y2 (Qlt_le_weak _ _ A2)) as G2.
  set (r := round64 y) in *.
  assert (C0 : (0 <= Qfloor r)%Z) by now apply Qfloor_nonneg.
  rewrite (@int_of_float_floor r C0).
  assert (C1 : (Qfloor r <= 99)%Z).
  { assert (X : (Qfloor r < 100)%Z).
    { rewrite Zlt_Qlt. eapply Qle_lt_trans; [apply Qfloor_le | exact U]. }
    lia. }
  assert (C2 : (F <= Qfloor r)%Z).
  { apply Qfloor_resp_le in G1. now rewrite Qfloor_Z in G1. }
  assert (C3 : (Qfloor r <= F + 1)%Z).
  { apply Qfloor_resp_le in G2. now rewrite Qfloor_Z in G2. }
  split; [exact L | lia].
Qed.

Set Implicit Arguments.

(** *** Decimal notation *)


Lemma decimal_acc (d : Decimal.uint) (acc : positive) :
  fold_left decimal_step (str_of_uint d) (Zpos acc)
  = Zpos (Pos.of_uint_acc d acc).
Proof.
  revert acc.
  induction d as [|d IH|d IH|d IH|d IH|d IH|d IH|d IH|d IH|d IH|d IH];
    intros acc; cbn [str_of_uint fold_left Pos.of_uint_acc];
    [reflexivity| ..];
    rewrite <- IH; f_equal; unfold decimal_step; lia.
Qed.

Lemma decimal_str_of_uint (d : Decimal.uint) :
  decimal (str_of_uint d) = Z.of_N (N.of_uint d).
Proof.
  unfold decimal, N.of_uint. fold decimal_step.
  induction d as [|d IH|d IH|d IH|d IH|d IH|d IH|d IH|d IH|d IH|d IH];
    cbn [str_of_uint fold_left Pos.of_uint];
    [reflexivity | exact IH | ..];
    cbn [Z.of_N]; rewrite <- decimal_acc; reflexivity.
Qed.

Lemma decimal_str_of_N (n : N) : decimal (str_of_N n) = Z.of_N n.
Proof.
  unfold str_of_N. now rewrite decimal_str_of_uint, DecimalN.Unsigned.of_to.
Qed.

Lemma str_of_uint_digits (d : Decimal.uint) : Forall is_digit (str_of_uint d).
Proof.
  induction d; cbn [str_of_uint]; constructor; auto; unfold is_digit; lia.
Qed.

Lemma decimal_zeros (k : nat) (ds : str) :
  decimal (repeat 48%N k ++ ds) = decimal ds.
Proof.
  unfold decimal. rewrite fold_left_app. f_equal.
  induction k as [|k IH]; [reflexivity | exact IH].
Qed.

(** [f"{z:02d}"] of a natural number: decimal digits, at least two of
    them, that denote [z]. *)
Lemma fmt_02d_nonneg (z : Z) :
  (0 <= z)%Z ->
  Forall is_digit (fmt_02d z) /\ decimal (fmt_02d z) = z
  /\ (2 <= length (fmt_02d z))%nat.
Proof.
  intros H. unfold fmt_02d.
  assert (E : (z <? 0)%Z = false) by now apply Z.ltb_ge.
  rewrite E. repeat split.
  - apply Forall_app. split.
    + apply Forall_forall. intros x Hx. apply repeat_spec in Hx. subst x.
      unfold is_digit. lia.
    + apply str_of_uint_digits.
  - rewrite decimal_zeros, decimal_str_of_N. lia.
  - rewrite length_app, repeat_length. unfold char. lia.
Qed.

Lemma fmt_02d_two (z : Z) :
  (0 <= z < 100)%Z -> length (fmt_02d z) = 2%nat.
Proof.
  intros H.
  assert (E : z = Z.of_nat (Z.to_nat z)) by lia.
  assert (B : (Z.to_nat z < 100)%nat) by lia.
  rewrite E. generalize dependent (Z.to_nat z). intros n _ B.
  do 100 (destruct n as [|n]; [reflexivity|]). lia.
Qed.

(** C9, as amended.  For a binary64 number of seconds that is not
    negative and below [2 ^ 55], [format_time] writes three decimal
    fields [M:S.C]: [M] is the floor of [seconds / 60] with at least
    two digits, [S] is the integer part of [seconds mod 60] with
    exactly two digits (from 00 to 59), and [C], with exactly two
    digits, is the integer part of the float product of the fractional
    second, which is exact, and 100: the number of whole hundredths in
    the fractional second or, where the product is rounded up to the
    next integer, one more; hundredths of a second, and not
    milliseconds. *)
Theorem format_time_fields (seconds : Q) :
  binary64 seconds = true -> 0 <= seconds -> seconds < 2 ^ 55 ->
  let M := Qfloor (seconds / 60) in
  let S := (Qfloor seconds mod 60)%Z in
  let fraction := fmod seconds 1 in
  let C := Qfloor (fmul fraction 100) in
  format_time seconds
  = fmt_02d M ++ u ":" ++ fmt_02d S ++ u "." ++ fmt_02d C
  /\ (Forall is_digit (fmt_02d M) /\ decimal (fmt_02d M) = M
      /\ (2 <= length (fmt_02d M))%nat)
  /\ (Forall is_digit (fmt_02d S) /\ decimal (fmt_02d S) = S
      /\ length (fmt_02d S) = 2%nat)
  /\ (Forall is_digit (fmt_02d C) /\ decimal (fmt_02d C) = C
      /\ length (fmt_02d C) = 2%nat)
  /\ M = (Qfloor seconds / 60)%Z
  /\ (0 <= S < 60)%Z
  /\ fraction == seconds - inject_Z (Qfloor seconds)
  /\ (0 <= C < 100)%Z
  /\ (Qfloor (fraction * 100) <= C <= Qfloor (fraction * 100) + 1)%Z.
Proof.
  intros B H U M S fraction C.
  apply Qeq_bool_iff in B.
  pose proof (Qfloor_nonneg H) as F0.
  assert (EM : M = (Qfloor seconds / 60)%Z).
  { unfold M. change (60 : Q) with (inject_Z 60). apply Qfloor_div_pos. }
  assert (EF : fraction == seconds - inject_Z (Qfloor seconds)).
  { unfold fraction. change (1 : Q) with (inject_Z (Zpos 1)).
    rewrite (fmod_nonneg seconds 1 H).
    destruct (c_fmod_nonneg seconds 1 H) as (E & _). rewrite E.
    now rewrite Z.div_1_r, Z.mul_1_l. }
  destruct (hundredths_field seconds H B) as (C0 & C1 & C2).
  fold fraction in C0, C1, C2.
  assert (EC : int_of_float (fmul fraction 100) = C)
    by (apply int_of_float_floor, Qfloor_nonneg, C0).
  rewrite EC in C1, C2.
  assert (EQ : Qfloor (fraction * 100)
               = Qfloor ((seconds - inject_Z (Qfloor seconds)) * 100))
    by (apply Qfloor_comp; now rewrite EF).
  assert (BM : (0 <= M)%Z) by (rewrite EM; apply Z.div_pos; lia).
  assert (BS : (0 <= S < 60)%Z) by (apply Z.mod_pos_bound; lia).
  assert (BC : (0 <= C < 100)%Z) by lia.
  destruct (fmt_02d_nonneg BM) as (DM & VM & LM).
  destruct (fmt_02d_nonneg (proj1 BS)) as (DS & VS & _).
  destruct (fmt_02d_nonneg (proj1 BC)) as (DC & VC & _).
  repeat split; try assumption; try lia;
    try (apply fmt_02d_two; lia).
  unfold format_time.
  rewrite (proj2 (minutes_field seconds H U)), <- EM.
  rewrite (seconds_field seconds H). fold S. fold fraction.
  now rewrite EC.
Qed.

Lemma format_time_fields_witness :
  format_time (1080863910568919 # 36028797018963968) = u "00:00.03"
  /\ Qfloor ((1080863910568919 # 36028797018963968) * 100) = 2%Z.
Proof.
  split; [|reflexivity].
  rewrite (proj1 (@format_time_fields
                    (1080863910568919 # 36028797018963968)
                    ltac:(vm_compute; reflexivity)
                    ltac:(discriminate)
                    ltac:(reflexivity))).
  vm_compute. reflexivity.
Defined.

(** C9 as it is written fails on large numbers: for [10 ^ 20]
    seconds, a binary64 number, the field of the minutes is not the
    floor of [seconds / 60]: the difference [seconds - seconds % 60]
    and its quotient by 60 are rounded. *)
Lemma format_time_large :
  binary64 (inject_Z (10 ^ 20)) = true
  /\ format_time (inject_Z (10 ^ 20)) = u "1666666666666666752:40.00"
  /\ Qfloor (inject_Z (10 ^ 20) / 60) = 1666666666666666666%Z.
Proof. repeat split; vm_compute; reflexivity. Qed.

(* ================================================================= *)
(** ** MEETING_TYPES and get_meeting_type_prompt                      *)
(* ================================================================= *)

Lemma embeds_intro (before needle after : str) :
  embeds (before ++ needle ++ after) needle.
Proof. now exists before, after. Qed.

Lemma specific_prompt_embeds (info : meeting_type) :
  embeds (specific_prompt info) (thai info)
  /\ embeds (specific_prompt info) (name info)
  /\ embeds (specific_prompt info) (structure info).
Proof.
  unfold specific_prompt. cbn [join].
  set (A := u "**ประเภทการประชุม:** "). set (B := u " (").
  set (C := u ")"). set (D := u "**โครงสร้างการสรุป:** ").
  set (E := nl ++ [] ++ nl ++ u "สรุปเนื้อหาตามโครงสร้างข้างต้นอย่างละเอียด").
  repeat split.
  - exists A, (B ++ name info ++ C ++ nl ++ (D ++ structure info) ++ E).
    now rewrite <- !app_assoc.
  - exists (A ++ thai info ++ B), (C ++ nl ++ (D ++ structure info) ++ E).
    now rewrite <- !app_assoc.
  - exists ((A ++ thai info ++ B ++ name info ++ C) ++ nl ++ D), E.
    now rewrite <- !app_assoc.
Qed.

Lemma get_absent (d : dict Z meeting_type) (k : Z) (fallback : meeting_type) :
  lookup Z.eqb k d = None -> get Z.eqb d k fallback = fallback.
Proof. intros H. unfold get. now rewrite H. Qed.

Lemma get_present (d : dict Z meeting_type) (k : Z) (fallback e : meeting_type) :
  lookup Z.eqb k d = Some e -> get Z.eqb d k fallback = e.
Proof. intros H. unfold get. now rewrite H. Qed.

Lemma fallback_general :
  exists g : meeting_type,
    getitem Z.eqb str_of_Z MEETING_TYPES 11%Z = Ok g
    /\ entry 11 = Some g /\ name g = u "General Meeting".
Proof.
  exists (get Z.eqb MEETING_TYPES 11%Z
              {| name := []; thai := []; structure := [] |}).
  repeat split; vm_compute; reflexivity.
Qed.

Lemma fallback_auto :
  exists a : meeting_type,
    getitem Z.eqb str_of_Z MEETING_TYPES 0%Z = Ok a /\ entry 0 = Some a.
Proof.
  exists (get Z.eqb MEETING_TYPES 0%Z
              {| name := []; thai := []; structure := [] |}).
  repeat split; vm_compute; reflexivity.
Qed.

Lemma embeds_trans (a b c : str) : embeds a b -> embeds b c -> embeds a c.
Proof.
  intros (p & q & ->) (p' & q' & ->). exists (p ++ p'), (q' ++ q).
  now rewrite <- !app_assoc.
Qed.

Lemma embeds_join (sep x : str) (l : list str) :
  In x l -> embeds (join sep l) x.
Proof.
  induction l as [|y l IH]; intros I; [easy|].
  destruct I as [-> | I].
  - destruct l as [|z l]; cbn [join].
    + exists [], []. now rewrite app_nil_r.
    + exists [], (sep ++ join sep (z :: l)). reflexivity.
  - destruct l as [|z l]; [easy|]. cbn [join].
    destruct (IH I) as (p & q & E). change (join sep (z :: l)) with
      (match l with [] => z | _ :: _ => z ++ sep ++ join sep l end) in E.
    exists (y ++ sep ++ p), q.
    change (match l with [] => z | _ :: _ => z ++ sep ++ join sep l end)
      with (join sep (z :: l)). cbn [join] in E |- *.
    rewrite E. now rewrite <- !app_assoc.
Qed.

(** C2.  [MEETING_TYPES] has twelve entries, under the keys 0 to 11 in
    that order.  Under the identifier 0 the lines of the prompt are
    those of the head and then one row ['| name | structure |'] for
    each of exactly the eleven entries of the keys 1 to 11, in that
    order, so that the prompt embeds the English name and the
    structure of each of them; under an identifier from 1 to 11 the
    prompt is the one of that entry alone and embeds its Thai name,
    its English name and its structure. *)
Theorem meeting_types_two_modes :
  length MEETING_TYPES = 12%nat
  /\ keys MEETING_TYPES = [0; 1; 2; 3; 4; 5; 6; 7; 8; 9; 10; 11]%Z
  /\ (exists (infos : list meeting_type) (prompt : str),
        length infos = 11%nat
        /\ map Some infos = map entry [1; 2; 3; 4; 5; 6; 7; 8; 9; 10; 11]%Z
        /\ get_meeting_type_prompt 0 = Ok prompt
        /\ prompt
           = join nl (auto_detect_head
                      ++ map (fun info =>
                                u "| " ++ name info ++ u " | "
                                  ++ structure info ++ u " |")
                             infos)
        /\ Forall (fun info => embeds prompt (name info)
                               /\ embeds prompt (structure info))
                  infos)
  /\ (forall id : Z, (1 <= id <= 11)%Z ->
        exists info : meeting_type,
          entry id = Some info
          /\ get_meeting_type_prompt id = Ok (specific_prompt info)
          /\ embeds (specific_prompt info) (thai info)
          /\ embeds (specific_prompt info) (name info)
          /\ embeds (specific_prompt info) (structure info)).
Proof.
  split; [reflexivity|]. split; [reflexivity|]. split.
  - exists (map snd (tl MEETING_TYPES)).
    exists (join nl (auto_detect_head
                     ++ map (fun info =>
                               u "| " ++ name info ++ u " | "
                                 ++ structure info ++ u " |")
                            (map snd (tl MEETING_TYPES)))).
    split; [reflexivity|]. split; [vm_compute; reflexivity|].
    split; [vm_compute; reflexivity|]. split; [reflexivity|].
    apply Forall_forall. intros info I.
    assert (R : embeds (join nl (auto_detect_head
                                 ++ map (fun info0 =>
                                           u "| " ++ name info0 ++ u " | "
                                             ++ structure info0 ++ u " |")
                                        (map snd (tl MEETING_TYPES))))
                       (u "| " ++ name info ++ u " | "
                          ++ structure info ++ u " |")).
    { apply embeds_join, in_or_app. right.
      apply (in_map (fun info0 =>
                       u "| " ++ name info0 ++ u " | "
                         ++ structure info0 ++ u " |")), I. }
    split; (eapply embeds_trans; [exact R|]).
    + exists (u "| "), (u " | " ++ structure info ++ u " |"). reflexivity.
    + exists (u "| " ++ name info ++ u " | "), (u " |").
      now rewrite <- !app_assoc.
  - intros id H.
    assert (C : (id = 1 \/ id = 2 \/ id = 3 \/ id = 4 \/ id = 5 \/ id = 6
                 \/ id = 7 \/ id = 8 \/ id = 9 \/ id = 10 \/ id = 11)%Z) by lia.
    assert (P : forall info, entry id = Some info -> id <> 0%Z ->
                get_meeting_type_prompt id = Ok (specific_prompt info)).
    { intros info E N. unfold get_meeting_type_prompt.
      apply Z.eqb_neq in N. rewrite N.
      destruct fallback_general as (g & G & _). rewrite G. cbn [bind].
      now rewrite (@get_present _ _ _ _ E). }
    assert (X : exists info, entry id = Some info).
    { repeat (destruct C as [-> | C]); try subst id;
        (eexists; unfold entry; cbn [lookup MEETING_TYPES Z.eqb Pos.eqb];
         reflexivity). }
    destruct X as (info & E). exists info. split; [exact E|]. split.
    + apply P; [exact E | lia].
    + apply specific_prompt_embeds.
Qed.

(** C3.  An identifier that is neither 0 nor a key of [MEETING_TYPES]
    gets the prompt of the entry 11, General Meeting; the prompt is
    built for every identifier, and the look-up of
    [summarize_with_diarization] and of [process] returns for every
    identifier an entry: the one under the key, or the entry 0 when
    there is none. *)
Theorem template_lookup_fallback (id : Z) :
  (id <> 0%Z -> entry id = None ->
   exists general : meeting_type,
     entry 11 = Some general /\ name general = u "General Meeting"
     /\ get_meeting_type_prompt id = Ok (specific_prompt general))
  /\ (exists prompt : str, get_meeting_type_prompt id = Ok prompt)
  /\ (exists info : meeting_type,
        meeting_type_info id = Ok info
        /\ (forall e, entry id = Some e -> info = e)
        /\ (entry id = None -> entry 0 = Some info)).
Proof.
  split; [|split].
  - intros N E. destruct fallback_general as (g & G & E11 & Hg).
    exists g. split; [exact E11|]. split; [exact Hg|].
    unfold get_meeting_type_prompt. apply Z.eqb_neq in N. rewrite N, G.
    cbn [bind]. now rewrite (@get_absent _ _ _ E).
  - unfold get_meeting_type_prompt. destruct (id =? 0)%Z; eexists; reflexivity.
  - destruct fallback_auto as (a & A & E0).
    unfold meeting_type_info. rewrite A. cbn [bind].
    destruct (entry id) as [e|] eqn:E.
    + exists e. rewrite (@get_present _ _ _ _ E). repeat split; congruence.
    + exists a. rewrite (@get_absent _ _ _ E). repeat split; congruence.
Qed.

Lemma template_lookup_fallback_witness :
  get_meeting_type_prompt 99
  = Ok (join nl [u "**ประเภทการประชุม:** ประชุมทั่วไป (General Meeting)";
                 u "**โครงสร้างการสรุป:** วาระ → ประเด็นหารือ → ข้อเสนอแนะ → มติ";
                 [];
                 u "สรุปเนื้อหาตามโครงสร้างข้างต้นอย่างละเอียด"]).
Proof.
  destruct (proj1 (template_lookup_fallback 99)) as (g & E & _ & P).
  - discriminate.
  - vm_compute. reflexivity.
  - rewrite P. vm_compute in E. inversion E. vm_compute. reflexivity.
Defined.

(** The same fall-backs in [app/services/summarizer.py], for any table
    that has the keys the code subscripts and any focus prompt. *)
Lemma summarizer_prompt_fallback (table : dict Z meeting_type)
      (focus : Z -> result str) (general : meeting_type) (id : Z)
      (focus_prompt : str) :
  lookup Z.eqb 11%Z table = Some general ->
  id <> 0%Z -> lookup Z.eqb id table = None ->
  focus id = Ok focus_prompt ->
  Summarizer.get_meeting_type_prompt table focus id
  = Ok (Summarizer.specific_prompt general focus_prompt).
Proof.
  intros G N E F. unfold Summarizer.get_meeting_type_prompt, getitem.
  apply Z.eqb_neq in N. rewrite N, G. cbn [bind].
  rewrite (@get_absent _ _ _ E), F. reflexivity.
Qed.

Lemma summarizer_info_fallback (table : dict Z meeting_type)
      (auto : meeting_type) (id : Z) :
  lookup Z.eqb 0%Z table = Some auto ->
  exists info : meeting_type,
    Summarizer.meeting_type_info table id = Ok info
    /\ (lookup Z.eqb id table = None -> info = auto).
Proof.
  intros A. unfold Summarizer.meeting_type_info, getitem. rewrite A.
  cbn [bind]. eexists. split; [reflexivity|].
  intros E. now rewrite (@get_absent _ _ _ E).
Qed.

(* ================================================================= *)
(** ** sorted                                                         *)
(* ================================================================= *)

Section SortedFacts.
Variable A : Type.
Variable le : A -> A -> bool.

Lemma insert_perm (x : A) (l : list A) : Permutation (insert le x l) (x :: l).
Proof.
  induction l as [|y l IH]; cbn [insert]; [reflexivity|].
  destruct (le x y); [reflexivity|].
  rewrite IH. apply perm_swap.
Qed.

Lemma sorted_perm (l : list A) : Permutation (sorted le l) l.
Proof.
  induction l as [|x l IH]; cbn [sorted fold_right]; [reflexivity|].
  fold (sorted le l). rewrite insert_perm. now constructor.
Qed.

Lemma sorted_length (l : list A) : length (sorted le l) = length l.
Proof. apply Permutation_length, sorted_perm. Qed.

(** Elements that [le] does not tell apart keep their order: the sort
    is stable. *)
Lemma insert_stable (p : A -> bool) (x : A) (l : list A) :
  (forall a b, p a = true -> p b = true -> le a b = true) ->
  filter p (insert le x l) = filter p (x :: l).
Proof.
  intros P. induction l as [|y l IH]; cbn [insert]; [reflexivity|].
  destruct (le x y) eqn:E; [reflexivity|].
  cbn [filter] in *. rewrite IH.
  destruct (p x) eqn:X, (p y) eqn:Y; try reflexivity.
  rewrite (P x y X Y) in E. discriminate.
Qed.

Lemma sorted_stable (p : A -> bool) (l : list A) :
  (forall a b, p a = true -> p b = true -> le a b = true) ->
  filter p (sorted le l) = filter p l.
Proof.
  intros P. induction l as [|x l IH]; [reflexivity|].
  cbn [sorted fold_right]. fold (sorted le l).
  rewrite (insert_stable p x (sorted le l) P). cbn [filter]. now rewrite IH.
Qed.

Hypothesis le_total : forall a b, le a b = true \/ le b a = true.

Lemma insert_sorted (x : A) (l : list A) :
  Sorted (holds le) l -> Sorted (holds le) (insert le x l).
Proof.
  unfold holds. induction 1 as [|y l S IH H]; cbn [insert].
  - repeat constructor.
  - destruct (le x y) eqn:E.
    + constructor; [now constructor | now constructor].
    + constructor; [exact IH|].
      assert (Y : holds le y x) by (destruct (le_total x y); [congruence | assumption]).
      destruct H as [|z l H]; cbn [insert].
      * now constructor.
      * destruct (le x z); now constructor.
Qed.

Lemma sorted_sorted (l : list A) : Sorted (holds le) (sorted le l).
Proof.
  induction l as [|x l IH]; cbn [sorted fold_right]; [constructor|].
  now apply insert_sorted.
Qed.
End SortedFacts.

(* ================================================================= *)
(** ** The guard of the percentages                                   *)
(* ================================================================= *)

Lemma percentage_total (time_sec total_time : Q) :
  exists pct : Q,
    percentage time_sec total_time = Ok pct
    /\ (total_time <= 0 -> pct = 0)
    /\ (0 < total_time ->
        truediv time_sec total_time = Ok (time_sec / total_time)
        /\ pct = time_sec / total_time * 100).
Proof.
  unfold percentage.
  destruct (Qle_bool total_time 0) eqn:E; cbn [negb].
  - exists 0. split; [reflexivity|]. split; [reflexivity|].
    intros P. apply Qle_bool_iff in E. lra.
  - assert (N : ~ total_time <= 0).
    { intros L. apply Qle_bool_iff in L. congruence. }
    assert (Z : Qeq_bool total_time 0 = false).
    { destruct (Qeq_bool total_time 0) eqn:Z; [|reflexivity].
      apply Qeq_bool_iff in Z. exfalso. apply N. lra. }
    unfold truediv. rewrite Z. cbn [bind].
    eexists. split; [reflexivity|]. split; [tauto | auto].
Qed.

Lemma info_lines_total (total_time : Q) (speakers_words : dict str Z)
      (its : list (str * Q)) :
  exists lines : list info_line,
    info_lines total_time speakers_words its = Ok lines
    /\ map line_speaker lines = map fst its
    /\ (total_time <= 0 -> Forall (fun l => line_pct l = 0) lines).
Proof.
  induction its as [|[speaker t] its (lines & E & M & Z)].
  - exists []. repeat split. constructor.
  - destruct (percentage_total t total_time) as (pct & P & P0 & _).
    cbn [info_lines]. rewrite P. cbn [bind]. rewrite E. cbn [bind].
    eexists. split; [reflexivity|]. split.
    + cbn [map line_speaker fst]. now rewrite M.
    + intros L. constructor; [cbn; auto | auto].
Qed.

Lemma rows_total (total_time : Q) (speakers_words : dict str Z)
      (its : list (str * Q)) :
  exists rs : list table_row,
    rows total_time speakers_words its = Ok rs
    /\ map row_speaker rs = map fst its
    /\ (total_time <= 0 -> Forall (fun r => row_pct r = 0) rs).
Proof.
  induction its as [|[speaker t] its (rs & E & M & Z)].
  - exists []. repeat split. constructor.
  - destruct (percentage_total t total_time) as (pct & P & P0 & _).
    unfold percentage in P.
    cbn [rows]. rewrite P. cbn [bind]. rewrite E. cbn [bind].
    eexists. split; [reflexivity|]. split.
    + cbn [map row_speaker fst]. now rewrite M.
    + intros L. constructor; [cbn; auto | auto].
Qed.

Lemma percentage_guard_lines (speakers_time : dict str Q)
      (speakers_words : dict str Z) :
  exists lines : list info_line,
    speaker_info speakers_time speakers_words = Ok lines.
Proof.
  unfold speaker_info.
  destruct (info_lines_total (total_time_of speakers_time) speakers_words
              (sorted by_time_desc (items speakers_time)))
    as (lines & E & _).
  now exists lines.
Qed.

(** C4.  The percentages are guarded against a total of zero.  In
    [summarize_with_diarization] the total of the empty dictionary is
    1; a percentage is 0 when the total is not positive and the
    quotient is taken, with a non-zero divisor, only when it is
    positive; so the speaker lines are built without
    [ZeroDivisionError] for every dictionary, one line per speaker, and
    all their percentages are 0 when the durations sum to zero or
    less.  The speaker table of [print_results] has the same guard. *)
Theorem percentage_guard (speakers_time : dict str Q)
        (speakers_words : dict str Z) :
  total_time_of [] = 1
  /\ (forall time_sec total_time : Q,
        exists pct : Q,
          percentage time_sec total_time = Ok pct
          /\ (total_time <= 0 -> pct = 0)
          /\ (0 < total_time ->
              truediv time_sec total_time = Ok (time_sec / total_time)
              /\ pct = time_sec / total_time * 100))
  /\ (exists lines : list info_line,
        speaker_info speakers_time speakers_words = Ok lines
        /\ length lines = length speakers_time
        /\ (total_time_of speakers_time <= 0 ->
            Forall (fun l => line_pct l = 0) lines))
  /\ (forall out : full_transcript,
        exists rs : list table_row,
          print_results out = Ok rs
          /\ length rs = length (speaking_time (summary out))
          /\ (sum (values (speaking_time (summary out))) <= 0 ->
              Forall (fun r => row_pct r = 0) rs)).
Proof.
  split; [reflexivity|]. split; [apply percentage_total|]. split.
  - unfold speaker_info.
    destruct (info_lines_total (total_time_of speakers_time) speakers_words
                (sorted by_time_desc (items speakers_time)))
      as (lines & E & M & Z).
    exists lines. split; [exact E|]. split; [|exact Z].
    rewrite <- (length_map line_speaker), M, length_map.
    apply sorted_length.
  - intros out. unfold print_results.
    destruct (rows_total (sum (values (speaking_time (summary out))))
                (word_count (summary out))
                (sorted by_item (items (speaking_time (summary out)))))
      as (rs & E & M & Z).
    exists rs. split; [exact E|]. split; [|exact Z].
    rewrite <- (length_map row_speaker), M, length_map.
    apply sorted_length.
Qed.

(* ================================================================= *)
(** ** The validation of /api/transcribe-summarize                    *)
(* ================================================================= *)

Lemma str_eqb_eq (a b : str) : str_eqb a b = true <-> a = b.
Proof.
  unfold str_eqb. destruct (list_eq_dec N.eq_dec a b); split; congruence.
Qed.

Lemma str_eqb_refl (a : str) : str_eqb a a = true.
Proof. now apply str_eqb_eq. Qed.





(* ================================================================= *)
(** ** summarize_with_diarization and the gateway                     *)
(* ================================================================= *)

Lemma get_meeting_type_prompt_total (id : Z) :
  exists prompt : str, get_meeting_type_prompt id = Ok prompt.
Proof.
  unfold get_meeting_type_prompt.
  destruct (id =? 0)%Z; [eexists; reflexivity|].
  destruct fallback_general as (g & G & _). rewrite G. cbn [bind].
  eexists. reflexivity.
Qed.

Lemma meeting_type_info_total (id : Z) :
  exists info : meeting_type, meeting_type_info id = Ok info.
Proof.
  unfold meeting_type_info. destruct fallback_auto as (a & A & _).
  rewrite A. cbn [bind]. eexists. reflexivity.
Qed.

Section GatewayFacts.
Variable api_key : str.
Variable url : str.
Variable post : request -> reply.
Variables (transcript : str) (speakers_time : dict str Q)
          (speakers_words : dict str Z) (id : Z) (language : str).

Hypothesis key_present : api_key <> [].

(** With a key, one request is issued whatever the arguments are. *)
Lemma one_request :
  exists req : request,
    summarize_with_diarization (Some api_key) url post transcript
                               speakers_time speakers_words id language
    = ([req], call_gateway post req).
Proof.
  unfold summarize_with_diarization, key_missing.
  destruct api_key as [|c k]; [congruence|].
  destruct (percentage_guard_lines speakers_time speakers_words) as (ls & L).
  destruct (get_meeting_type_prompt_total id) as (p & P).
  destruct (meeting_type_info_total id) as (i & I).
  rewrite L. cbn [bind]. rewrite P. cbn [bind]. rewrite I. cbn [bind].
  eexists. reflexivity.
Qed.

Lemma request_failure (msg : str) :
  (forall req, post req = Failed msg) ->
  snd (summarize_with_diarization (Some api_key) url post transcript
                                  speakers_time speakers_words id language)
  = Ok (JStr (u "Error calling NTC API: " ++ msg)).
Proof.
  intros F. destruct one_request as (req & E). rewrite E. cbn [snd].
  unfold call_gateway. now rewrite F.
Qed.

Lemma missing_key_or_index (body : json) :
  (forall req, post req = Body body) ->
  (exists k, content_of body = Raise (KeyError k))
  \/ (exists m, content_of body = Raise (IndexError m)) ->
  exists text : str,
    snd (summarize_with_diarization (Some api_key) url post transcript
                                    speakers_time speakers_words id language)
    = Ok (JStr (u "Error parsing response: " ++ text)).
Proof.
  intros B H. destruct one_request as (req & E). rewrite E. cbn [snd].
  unfold call_gateway. rewrite B.
  destruct H as [(k & K) | (m & M)]; [rewrite K | rewrite M];
    eexists; reflexivity.
Qed.

(** A body whose ["choices"] is [null] is not handled: [None[0]]
    raises [TypeError], which no handler of the [try] block takes. *)
Lemma null_choices_raise :
  (forall req, post req = Body (JObj [(u "choices", JNull)])) ->
  snd (summarize_with_diarization (Some api_key) url post transcript
                                  speakers_time speakers_words id language)
  = Raise TypeError.
Proof.
  intros B. destruct one_request as (req & E). rewrite E. cbn [snd].
  unfold call_gateway. rewrite B. vm_compute. reflexivity.
Qed.
End GatewayFacts.

Lemma no_key_no_request (api_key : option str) (url : str)
      (post : request -> reply) (transcript : str)
      (speakers_time : dict str Q) (speakers_words : dict str Z)
      (id : Z) (language : str) :
  api_key = None \/ api_key = Some [] ->
  summarize_with_diarization api_key url post transcript
                             speakers_time speakers_words id language
  = ([], Ok (JStr (u "Error: NTC_API_KEY not found in environment variables"))).
Proof. intros [-> | ->]; reflexivity. Qed.

(** C7.  The failing input: the gateway answers 200 with the body
    [{"choices": null}].  [summarize_with_diarization] issues its
    request and then raises [TypeError] to its caller: the body lacks
    [choices[0].message.content], yet no string starting with
    ['Error parsing response:'] is returned. *)
Theorem summarize_with_diarization_null_choices :
  let outcome :=
    summarize_with_diarization
      (Some (u "secret"))
      (u "https://aigateway.ntictsolution.com/v1/chat/completions")
      (fun _ => Body (JObj [(u "choices", JNull)]))
      (u "[Unknown]: hello") [(u "Unknown", 2)] [(u "Unknown", 1%Z)]
      0 (u "Thai") in
  length (fst outcome) = 1%nat /\ snd outcome = Raise TypeError.
Proof. split; vm_compute; reflexivity. Qed.

(* ================================================================= *)
(** ** Dictionaries                                                   *)
(* ================================================================= *)

Unset Implicit Arguments.

Section DictFacts.
Variables K V : Type.
Variable eqb : K -> K -> bool.
Hypothesis eqb_eq : forall a b, eqb a b = true <-> a = b.

Lemma eqb_sym (a b : K) : eqb a b = eqb b a.
Proof.
  destruct (eqb a b) eqn:E, (eqb b a) eqn:F; try reflexivity.
  - apply eqb_eq in E. subst. rewrite (proj2 (eqb_eq b b) eq_refl) in F.
    congruence.
  - apply eqb_eq in F. subst. rewrite (proj2 (eqb_eq a a) eq_refl) in E.
    congruence.
Qed.


Lemma keys_setitem (W : Type) (d : dict K V) (d' : dict K W)
      (k : K) (v : V) (w : W) :
  keys d = keys d' -> keys (setitem eqb d k v) = keys (setitem eqb d' k w).
Proof.
  revert d'. unfold keys.
  induction d as [|[k0 v0] d IH]; intros [|[k1 w1] d'] H;
    cbn [map fst] in H; try discriminate; cbn [setitem].
  - reflexivity.
  - injection H as -> H.
    destruct (eqb k k1); cbn [map fst]; f_equal; auto.
Qed.

Lemma setitem_not_nil (d : dict K V) (k : K) (v : V) :
  setitem eqb d k v <> [].
Proof.
  destruct d as [|[k0 v0] d]; cbn [setitem]; [discriminate|].
  destruct (eqb k k0); discriminate.
Qed.
End DictFacts.

(* ================================================================= *)
(** ** The loop of the aggregation pass                               *)
(* ================================================================= *)

Lemma loop_body_inv (st st' : locals) (seg : segment) :
  loop_body st seg = Ok st' ->
  exists speaker : str,
    format_speaker (seg_speaker seg) = Ok speaker
    /\ speakers_time st'
       = setitem str_eqb (speakers_time st) speaker
                 (get str_eqb (speakers_time st) speaker 0 + duration seg)
    /\ speakers_words st'
       = setitem str_eqb (speakers_words st) speaker
                 (get str_eqb (speakers_words st) speaker 0 + words_of seg)%Z
    /\ transcript_lines st'
       = transcript_lines st ++ [line_of speaker (text_of seg)].
Proof.
  unfold loop_body. destruct (format_speaker (seg_speaker seg)) as [sp|e];
    cbn [bind]; [|discriminate].
  intros H. injection H as <-. exists sp. repeat split.
Qed.

Lemma loop_body_accepted (st : locals) (seg : segment) :
  accepted seg -> exists st' : locals, loop_body st seg = Ok st'.
Proof.
  intros (l & L). unfold loop_body. rewrite L. cbn [bind].
  eexists. reflexivity.
Qed.

Lemma for_each_accepted (segs : list segment) :
  Forall accepted segs ->
  forall st : locals, exists st' : locals, for_each segs st = Ok st'.
Proof.
  induction 1 as [|seg segs A _ IH]; intros st; cbn [for_each].
  - now exists st.
  - destruct (loop_body_accepted st _ A) as (st1 & E). rewrite E. cbn [bind].
    apply IH.
Qed.

Lemma for_each_cons (seg : segment) (segs : list segment) (st st' : locals) :
  for_each (seg :: segs) st = Ok st' ->
  exists st1 : locals, loop_body st seg = Ok st1 /\ for_each segs st1 = Ok st'.
Proof.
  cbn [for_each]. destruct (loop_body st seg) as [st1|e]; cbn [bind];
    [|discriminate].
  intros H. now exists st1.
Qed.






Lemma for_each_keys (segs : list segment) :
  forall st st' : locals,
    for_each segs st = Ok st' ->
    keys (speakers_time st) = keys (speakers_words st) ->
    keys (speakers_time st') = keys (speakers_words st').
Proof.
  induction segs as [|seg segs IH]; intros st st' H E.
  - cbn in H. injection H as <-. exact E.
  - destruct (for_each_cons _ _ _ _ H) as (st1 & B & R).
    apply (IH _ _ R).
    destruct (loop_body_inv _ _ _ B) as (sp & _ & T & W & _).
    rewrite T, W. now apply keys_setitem.
Qed.

Lemma for_each_not_nil (segs : list segment) :
  forall st st' : locals,
    for_each segs st = Ok st' ->
    (segs <> [] \/ speakers_time st <> []) ->
    speakers_time st' <> [].
Proof.
  induction segs as [|seg segs IH]; intros st st' H N.
  - cbn in H. injection H as <-. destruct N as [N|N]; congruence.
  - destruct (for_each_cons _ _ _ _ H) as (st1 & B & R).
    apply (IH _ _ R). right.
    destruct (loop_body_inv _ _ _ B) as (sp & _ & T & _ & _).
    rewrite T. apply setitem_not_nil.
Qed.

Lemma for_each_lines (segs : list segment) :
  forall st st' : locals,
    for_each segs st = Ok st' ->
    exists lines : list str,
      transcript_lines st' = transcript_lines st ++ lines
      /\ Forall2 line_for segs lines.
Proof.
  induction segs as [|seg segs IH]; intros st st' H.
  - cbn in H. injection H as <-. exists []. split; [now rewrite app_nil_r|].
    constructor.
  - destruct (for_each_cons _ _ _ _ H) as (st1 & B & R).
    destruct (IH _ _ R) as (lines & L & F).
    destruct (loop_body_inv _ _ _ B) as (sp & E & _ & _ & T).
    exists (line_of sp (text_of seg) :: lines). split.
    + rewrite L, T, <- app_assoc. reflexivity.
    + constructor; [|exact F]. exists sp. split; [exact E|].
      unfold line_of, text_of. reflexivity.
Qed.

(* ================================================================= *)
(** ** Sums over the segments of one label                            *)
(* ================================================================= *)










(* ================================================================= *)
(** ** process                                                        *)
(* ================================================================= *)

Lemma by_start_total (a b : segment) :
  by_start a b = true \/ by_start b a = true.
Proof.
  unfold by_start. rewrite !Qle_bool_iff.
  destruct (Qlt_le_dec (seg_start b) (seg_start a)) as [L|L];
    [right; now apply Qlt_le_weak | now left].
Qed.

Lemma sorted_by_start (segs : list segment) :
  StronglySorted starts_le (sorted by_start segs).
Proof.
  apply Sorted_StronglySorted.
  - intros a b c. unfold starts_le. apply Qle_trans.
  - pose proof (@sorted_sorted _ by_start by_start_total segs) as S.
    induction S as [|x l _ IH H]; constructor; [exact IH|].
    destruct H as [|y l H]; constructor.
    unfold holds, by_start in H. now apply Qle_bool_iff.
Qed.

(** What [process] returns when it returns. *)
Lemma process_inv (segs : list segment) (out : full_transcript) :
  process segs = Ok out ->
  exists st : locals,
    for_each (sorted by_start segs)
             {| speakers_time := []; speakers_words := [];
                transcript_lines := [] |} = Ok st
    /\ segments out = sorted by_start segs
    /\ transcript_with_speakers out = join nl (transcript_lines st)
    /\ speaking_time (summary out) = speakers_time st
    /\ word_count (summary out) = speakers_words st.
Proof.
  unfold process.
  destruct (for_each (sorted by_start segs) _) as [st|e]; cbn [bind];
    [|discriminate].
  intros H. injection H as <-. exists st. repeat split.
Qed.

Lemma process_accepted (segs : list segment) :
  Forall accepted segs -> exists out : full_transcript, process segs = Ok out.
Proof.
  intros A. unfold process.
  assert (A' : Forall accepted (sorted by_start segs)).
  { eapply Permutation_Forall; [|exact A]. symmetry. apply sorted_perm. }
  destruct (for_each_accepted _ A'
              {| speakers_time := []; speakers_words := [];
                 transcript_lines := [] |}) as (st & E).
  rewrite E. cbn [bind]. eexists. reflexivity.
Qed.


Lemma sample_accepted : Forall accepted sample_segments.
Proof.
  repeat constructor.
  - exists (u "คนพูด 1"). vm_compute. reflexivity.
  - exists (u "Unknown"). vm_compute. reflexivity.
  - exists (u "คนพูด 1"). vm_compute. reflexivity.
Qed.



(** C5.  The segments [process] returns are those of the
    transcription in ascending order of their start, and the
    transcript is the lines ['[label]: stripped text'] of the segments
    in that order, joined by line feeds. *)
Theorem transcript_in_start_order (raw : list segment)
        (out : full_transcript) :
  process raw = Ok out ->
  Permutation (segments out) raw
  /\ StronglySorted starts_le (segments out)
  /\ exists lines : list str,
      Forall2 line_for (segments out) lines
      /\ transcript_with_speakers out = join nl lines.
Proof.
  intros E.
  destruct (process_inv _ _ E) as (st & F & S & T & _).
  rewrite S. split; [apply sorted_perm|]. split; [apply sorted_by_start|].
  destruct (for_each_lines _ _ _ F) as (lines & L & F2).
  exists lines. split; [exact F2|]. now rewrite T, L.
Qed.

Lemma transcript_in_start_order_witness :
  exists out : full_transcript,
    process sample_segments = Ok out
    /\ StronglySorted starts_le (segments out)
    /\ transcript_with_speakers out
       = u "[Unknown]: x" ++ nl ++ u "[คนพูด 1]: " ++ nl ++ u "[คนพูด 1]: a b".
Proof.
  destruct (process_accepted sample_segments sample_accepted) as (out & E).
  exists out. split; [exact E|].
  split; [exact (proj1 (proj2 (transcript_in_start_order _ _ E)))|].
  vm_compute in E. injection E as <-. vm_compute. reflexivity.
Defined.

(** C10.  Whenever [process] returns, the dictionaries under
    ['speaking_time'] and under ['word_count'] have the same keys, in
    the same order, and each of them is empty exactly when the list of
    segments is. *)
Theorem summary_keys_agree (raw : list segment) (out : full_transcript) :
  process raw = Ok out ->
  keys (speaking_time (summary out)) = keys (word_count (summary out))
  /\ (forall label : str,
        In label (keys (speaking_time (summary out)))
        <-> In label (keys (word_count (summary out))))
  /\ (speaking_time (summary out) = [] <-> raw = [])
  /\ (word_count (summary out) = [] <-> raw = []).
Proof.
  intros H. destruct (process_inv _ _ H) as (st & F & _ & _ & T & W).
  assert (K : keys (speaking_time (summary out))
              = keys (word_count (summary out))).
  { rewrite T, W. apply (for_each_keys _ _ _ F). reflexivity. }
  assert (E : speaking_time (summary out) = [] <-> raw = []).
  { split.
    - intros Z. destruct raw as [|seg raw]; [reflexivity|]. exfalso.
      rewrite T in Z. revert Z. apply (for_each_not_nil _ _ _ F). left.
      intros N. apply (f_equal (@length segment)) in N.
      rewrite sorted_length in N. discriminate.
    - intros ->. cbn in H. injection H as <-. reflexivity. }
  split; [exact K|]. split; [now rewrite K|]. split; [exact E|].
  rewrite <- E. unfold keys in K.
  destruct (speaking_time (summary out)), (word_count (summary out));
    cbn in K; try discriminate; split; congruence.
Qed.

Lemma summary_keys_agree_witness :
  exists out : full_transcript,
    process sample_segments = Ok out
    /\ keys (speaking_time (summary out)) = keys (word_count (summary out)).
Proof.
  destruct (process_accepted sample_segments sample_accepted) as (out & E).
  exists out. split; [exact E|].
  exact (proj1 (summary_keys_agree sample_segments out E)).
Defined.

(* ================================================================= *)
(** ** More on format_speaker                                         *)
(* ================================================================= *)

Import Spec2.

Lemma startswith_app (p s : str) :
  startswith p s = true -> exists rest : str, s = p ++ rest.
Proof.
  revert s. induction p as [|a p IH]; intros s H.
  - now exists s.
  - destruct s as [|b s]; [discriminate|]. cbn [startswith] in H.
    apply andb_true_iff in H. destruct H as [E H]. apply N.eqb_eq in E.
    subst b. destruct (IH s H) as (rest & ->). now exists rest.
Qed.

Lemma split_on_not_nil (c : char) (s : str) : split_on c s <> [].
Proof.
  induction s as [|x s IH]; cbn [split_on]; [discriminate|].
  destruct (x =? c)%N; [discriminate|].
  destruct (split_on c s); [congruence | discriminate].
Qed.

Lemma split_on_speaker (rest : str) :
  exists (piece : str) (more : list str),
    split_on 95%N (u "SPEAKER_" ++ rest) = u "SPEAKER" :: piece :: more.
Proof.
  change (u "SPEAKER_") with [83; 80; 69; 65; 75; 69; 82; 95]%N.
  change (u "SPEAKER") with [83; 80; 69; 65; 75; 69; 82]%N.
  destruct (split_on 95%N rest) as [|piece more] eqn:E.
  - now apply split_on_not_nil in E.
  - exists piece, more. cbn [app split_on N.eqb Pos.eqb]. now rewrite E.
Qed.

Lemma int_raises_value_error (s : str) (e : exn) :
  int s = Raise e -> e = ValueError.
Proof.
  intros H. unfold int in H. cbv zeta in H.
  destruct (split_sign _) as [negative a].
  destruct (startswith [95%N] a); [congruence|].
  destruct (scan_digits 0%N a) as [[ds rest]|]; [|congruence].
  destruct ((length ds =? 0)%nat || (int_max_str_digits <? length ds)%nat);
    [congruence|].
  destruct (skip_ascii_space rest); congruence.
Qed.

Lemma thai_label_shape (num : Z) :
  u "คนพูด " ++ str_of_Z num <> []
  /\ startswith (u "SPEAKER_") (u "คนพูด " ++ str_of_Z num) = false.
Proof.
  change (u "คนพูด ") with [3588; 3609; 3614; 3641; 3604; 32]%N.
  split; [discriminate | reflexivity].
Qed.

Lemma format_speaker_cases (speaker : option str) :
  (exists rest piece : str,
      speaker = Some (u "SPEAKER_" ++ rest)
      /\ format_speaker speaker
         = (n <- int piece ;; Ok (u "คนพูด " ++ str_of_Z (n + 1))))
  \/ (exists label : str,
         format_speaker speaker = Ok label
         /\ label <> []
         /\ startswith (u "SPEAKER_") label = false).
Proof.
  unfold format_speaker.
  destruct (truthy speaker && startswith (u "SPEAKER_") (the speaker)) eqn:B.
  - left. apply andb_true_iff in B. destruct B as [T S].
    destruct speaker as [s|]; [|discriminate]. cbn [the] in *.
    destruct (startswith_app _ _ S) as (rest & ->).
    destruct (split_on_speaker rest) as (piece & more & E).
    rewrite E. cbn [index nth_error bind]. now exists rest, piece.
  - right. destruct (truthy speaker) eqn:T.
    + destruct speaker as [[|c s]|]; try discriminate. cbn [the andb] in *.
      exists (c :: s). repeat split; [discriminate | exact B].
    + exists (u "Unknown"). repeat split. discriminate.
Qed.

(** X1.  [format_speaker] either returns a label that is not empty and
    does not start with ['SPEAKER_'], or raises [ValueError]; it
    raises only on a string that starts with ['SPEAKER_'], and never
    an [IndexError] from the subscript of the split. *)
Theorem format_speaker_outcome (speaker : option str) :
  (exists label : str,
      format_speaker speaker = Ok label
      /\ label <> []
      /\ startswith (u "SPEAKER_") label = false)
  \/ (format_speaker speaker = Raise ValueError
      /\ exists rest : str, speaker = Some (u "SPEAKER_" ++ rest)).
Proof.
  destruct (format_speaker_cases speaker) as [(rest & piece & S & E) | R].
  - rewrite E. destruct (int piece) as [n|e] eqn:I; cbn [bind].
    + left. eexists. split; [reflexivity|]. apply thai_label_shape.
    + right. apply int_raises_value_error in I. subst e.
      split; [reflexivity|]. now exists rest.
  - now left.
Qed.

Lemma format_speaker_label (speaker : option str) (label : str) :
  format_speaker speaker = Ok label ->
  label <> [] /\ startswith (u "SPEAKER_") label = false.
Proof.
  intros H.
  destruct (format_speaker_cases speaker)
    as [(rest & piece & _ & E) | (l & E & N & S)].
  - rewrite E in H. destruct (int piece) as [n|e]; cbn [bind] in H;
      [|discriminate].
    injection H as <-. apply thai_label_shape.
  - rewrite E in H. injection H as <-. now split.
Qed.

Lemma format_speaker_raises (speaker : option str) (e : exn) :
  format_speaker speaker = Raise e -> e = ValueError.
Proof.
  intros H.
  destruct (format_speaker_cases speaker)
    as [(rest & piece & _ & E) | (l & E & _)].
  - rewrite E in H. destruct (int piece) as [n|e'] eqn:I; cbn [bind] in H;
      [discriminate|].
    injection H as <-. now apply int_raises_value_error in I.
  - congruence.
Qed.

(** X2.  Formatting a label that [format_speaker] has returned gives
    the same label again: a label is formatted once, however often the
    pipeline, the printed table and the export pass it on. *)
Theorem format_speaker_idempotent (speaker : option str) (label : str) :
  format_speaker speaker = Ok label ->
  format_speaker (Some label) = Ok label.
Proof.
  intros H. destruct (format_speaker_label _ _ H) as [N S].
  unfold format_speaker. destruct label as [|c l]; [congruence|].
  cbn [truthy the andb]. now rewrite S.
Qed.

Lemma format_speaker_idempotent_witness :
  format_speaker (Some (u "คนพูด 8")) = Ok (u "คนพูด 8").
Proof.
  apply (format_speaker_idempotent (Some (u "SPEAKER_07")) (u "คนพูด 8")).
  vm_compute. reflexivity.
Defined.

(* ================================================================= *)
(** ** More on process                                                *)
(* ================================================================= *)

Lemma for_each_raises (segs : list segment) :
  forall (st : locals) (e : exn),
    for_each segs st = Raise e ->
    Exists (fun seg => format_speaker (seg_speaker seg) = Raise e) segs.
Proof.
  induction segs as [|seg segs IH]; intros st e H; [discriminate|].
  cbn [for_each] in H. unfold loop_body in H.
  destruct (format_speaker (seg_speaker seg)) as [sp|e'] eqn:F;
    cbn [bind] in H.
  - apply Exists_cons_tl. apply (IH _ _ H).
  - injection H as <-. now apply Exists_cons_hd.
Qed.

Lemma for_each_returns (segs : list segment) (st st' : locals) :
  for_each segs st = Ok st' -> Forall accepted segs.
Proof.
  intros H. destruct (for_each_lines _ _ _ H) as (lines & _ & F). clear H.
  induction F as [|seg line segs lines (label & E & _) _ IH]; constructor.
  - now exists label.
  - exact IH.
Qed.

(** X4.  [process] returns exactly when [format_speaker] takes the
    speaker of every segment; otherwise it raises, and what it raises
    is the [ValueError] of [format_speaker]. *)
Theorem process_outcome (raw : list segment) :
  ((exists out : full_transcript, process raw = Ok out)
   <-> Forall accepted raw)
  /\ (forall e : exn, process raw = Raise e -> e = ValueError).
Proof.
  split; [split|].
  - intros (out & H). destruct (process_inv _ _ H) as (st & F & _).
    apply for_each_returns in F.
    eapply Permutation_Forall; [|exact F]. apply sorted_perm.
  - apply process_accepted.
  - intros e H. unfold process in H.
    destruct (for_each (sorted by_start raw) _) as [st|e'] eqn:F;
      cbn [bind] in H; [discriminate|].
    injection H as <-. apply for_each_raises in F.
    apply Exists_exists in F. destruct F as (seg & _ & R).
    now apply format_speaker_raises in R.
Qed.

(** *** Nothing is lost in the sums *)










(** *** The order of the keys *)

Lemma mem_app (y : str) (a b : list str) : mem y (a ++ b) = mem y a || mem y b.
Proof. unfold mem. apply existsb_app. Qed.

Lemma keys_setitem_add (V : Type) (d : dict str V) (k : str) (v : V) :
  keys (setitem str_eqb d k v) = add_key (keys d) k.
Proof.
  unfold add_key, keys.
  induction d as [|[k0 v0] d IH]; cbn [setitem map fst]; [reflexivity|].
  unfold mem in *. cbn [existsb].
  destruct (str_eqb k k0) eqn:E; cbn [map fst orb]; [reflexivity|].
  rewrite IH. destruct (existsb (str_eqb k) (map fst d)); reflexivity.
Qed.

Lemma filter_twice (A : Type) (p q : A -> bool) (l : list A) :
  filter p (filter q l) = filter (fun x => q x && p x) l.
Proof.
  induction l as [|x l IH]; [reflexivity|]. cbn [filter].
  destruct (q x); cbn [filter andb]; [destruct (p x)|]; now rewrite IH.
Qed.

Lemma fold_add_key (ls : list str) :
  forall acc : list str,
    fold_left add_key ls acc
    = acc ++ filter (fun y => negb (mem y acc)) (first_seen ls).
Proof.
  induction ls as [|x ls IH]; intros acc; cbn [fold_left first_seen filter].
  - now rewrite app_nil_r.
  - rewrite IH. unfold add_key. rewrite filter_twice.
    destruct (mem x acc) eqn:M; cbn [negb].
    + f_equal. apply filter_ext_in. intros y _.
      destruct (str_eqb y x) eqn:E; cbn [negb andb]; [|reflexivity].
      apply str_eqb_eq in E. subst y. now rewrite M.
    + rewrite <- app_assoc. cbn [app]. f_equal. f_equal.
      apply filter_ext_in. intros y _. rewrite mem_app. unfold mem at 2.
      cbn [existsb]. rewrite orb_false_r, negb_orb. apply andb_comm.
Qed.

Lemma first_seen_NoDup (ls : list str) : NoDup (first_seen ls).
Proof.
  induction ls as [|x ls IH]; cbn [first_seen]; constructor.
  - intros I. apply filter_In in I. destruct I as [_ N].
    now rewrite str_eqb_refl in N.
  - now apply NoDup_filter.
Qed.

Lemma for_each_key_order (segs : list segment) :
  forall st st' : locals,
    for_each segs st = Ok st' ->
    keys (speakers_time st')
    = fold_left add_key (labels_of segs) (keys (speakers_time st)).
Proof.
  induction segs as [|seg segs IH]; intros st st' H.
  - cbn in H. injection H as <-. reflexivity.
  - destruct (for_each_cons _ _ _ _ H) as (st1 & B & R).
    destruct (loop_body_inv _ _ _ B) as (sp & E & T & _ & _).
    cbn [labels_of]. rewrite E. cbn [fold_left].
    rewrite (IH _ _ R), T, keys_setitem_add. reflexivity.
Qed.

(** X6.  The keys of ['speaking_time'] (and so of ['word_count']) are
    the labels of the segments in start order, each once, where it is
    first met: the dictionaries list the speakers in the order in
    which they first speak. *)
Theorem summary_key_order (raw : list segment) (out : full_transcript) :
  process raw = Ok out ->
  keys (speaking_time (summary out)) = first_seen (labels_of (segments out))
  /\ keys (word_count (summary out)) = first_seen (labels_of (segments out))
  /\ NoDup (keys (speaking_time (summary out))).
Proof.
  intros H. destruct (process_inv _ _ H) as (st & F & S & _ & T & W).
  assert (K : keys (speaking_time (summary out))
              = first_seen (labels_of (segments out))).
  { rewrite T, S, (for_each_key_order _ _ _ F), fold_add_key.
    cbn [speakers_time keys map app]. unfold mem. cbn [existsb negb].
    clear. induction (first_seen (labels_of (sorted by_start raw)))
      as [|x l IH]; [reflexivity|].
    cbn [filter]. now rewrite IH. }
  split; [exact K|]. split.
  - rewrite <- K, T, W. symmetry.
    apply (for_each_keys _ _ _ F). reflexivity.
  - rewrite K. apply first_seen_NoDup.
Qed.

Lemma summary_key_order_witness :
  exists out : full_transcript,
    process sample_segments = Ok out
    /\ keys (speaking_time (summary out))
       = first_seen (labels_of (segments out)).
Proof.
  destruct (process_accepted sample_segments sample_accepted) as (out & E).
  exists out. split; [exact E|].
  exact (proj1 (summary_key_order sample_segments out E)).
Defined.

(** *** Segments that start together *)

Lemma same_start_by_start (q : Q) (a b : segment) :
  same_start q a = true -> same_start q b = true -> by_start a b = true.
Proof.
  unfold same_start, by_start. rewrite !Qeq_bool_iff, Qle_bool_iff.
  intros A B. rewrite A, B. apply Qle_refl.
Qed.

(** X7.  Segments with the same start keep, among themselves, the
    order in which the transcription gave them: the sort by start is
    stable, so the transcript and the first-speaker order do not
    depend on how ties would be broken. *)
Theorem process_stable (raw : list segment) (out : full_transcript) (q : Q) :
  process raw = Ok out ->
  filter (same_start q) (segments out) = filter (same_start q) raw.
Proof.
  intros H. destruct (process_inv _ _ H) as (st & _ & S & _).
  rewrite S. apply sorted_stable. apply same_start_by_start.
Qed.

Lemma process_stable_witness :
  exists out : full_transcript,
    process tied_segments = Ok out
    /\ map seg_text (filter (same_start 1) (segments out))
       = [Some (u "b"); Some (u "c"); Some (u "d")]
    /\ map seg_text (segments out)
       = [Some (u "a"); Some (u "b"); Some (u "c"); Some (u "d")].
Proof.
  destruct (process tied_segments) as [out|e] eqn:E;
    [|vm_compute in E; discriminate].
  exists out. split; [reflexivity|]. split.
  - rewrite (process_stable tied_segments out 1 E). reflexivity.
  - vm_compute in E. injection E as <-. reflexivity.
Defined.

(* ================================================================= *)
(** ** More on the speaker lines of the prompt                        *)
(* ================================================================= *)

Lemma int_of_float_Z (k : Z) : int_of_float (inject_Z k) = k.
Proof.
  unfold int_of_float. destruct (Qle_bool 0 (inject_Z k));
    [apply Qfloor_Z | apply Qceiling_Z].
Qed.

Lemma minutes_seconds (t : Q) :
  0 <= t -> t < 2 ^ 55 ->
  let mins := int_of_float (floordiv t 60) in
  let secs := int_of_float (fmod t 60) in
  (60 * mins + secs = Qfloor t)%Z /\ (0 <= secs < 60)%Z.
Proof.
  intros P U mins secs.
  assert (B : (0 <= Qfloor t mod 60 < 60)%Z) by (apply Z.mod_pos_bound; lia).
  assert (M : mins = (Qfloor t / 60)%Z)
    by (apply (proj2 (minutes_field t P U))).
  assert (S : secs = (Qfloor t mod 60)%Z) by (apply (seconds_field t P)).
  rewrite M, S. split; [|exact B].
  rewrite (Z.div_mod (Qfloor t) 60) at 3 by lia. reflexivity.
Qed.

(** How a line comes from an item of ['speaking_time']. *)
Lemma info_lines_inv (total_time : Q) (speakers_words : dict str Z)
      (its : list (str * Q)) (lines : list info_line) :
  info_lines total_time speakers_words its = Ok lines ->
  Forall2 (fun it line =>
             line_speaker line = fst it
             /\ line_mins line = int_of_float (floordiv (snd it) 60)
             /\ line_secs line = int_of_float (fmod (snd it) 60)
             /\ percentage (snd it) total_time = Ok (line_pct line)
             /\ line_words line = get str_eqb speakers_words (fst it) 0%Z)
          its lines.
Proof.
  revert lines. induction its as [|[speaker t] its IH]; intros lines H.
  - cbn in H. injection H as <-. constructor.
  - cbn [info_lines] in H.
    destruct (percentage t total_time) as [pct|e] eqn:P; cbn [bind] in H;
      [|discriminate].
    destruct (info_lines total_time speakers_words its) as [tl|e] eqn:T;
      cbn [bind] in H; [|discriminate].
    injection H as <-. constructor; [|now apply IH].
    cbn [line_speaker line_mins line_secs line_pct line_words fst snd].
    repeat split. exact P.
Qed.

Lemma by_time_desc_total (a b : str * Q) :
  by_time_desc a b = true \/ by_time_desc b a = true.
Proof.
  unfold by_time_desc. rewrite !Qle_bool_iff.
  destruct (Qlt_le_dec (snd a) (snd b)) as [L|L]; [right | left]; lra.
Qed.

Lemma sorted_by_time_desc (its : list (str * Q)) :
  StronglySorted later_le (sorted by_time_desc its).
Proof.
  apply Sorted_StronglySorted.
  - intros a b c. unfold later_le. intros A B. lra.
  - pose proof (@sorted_sorted _ by_time_desc by_time_desc_total its) as S.
    induction S as [|x l _ IH H]; constructor; [exact IH|].
    destruct H as [|y l H]; constructor.
    unfold holds, by_time_desc in H. apply Qle_bool_iff in H.
    unfold later_le. lra.
Qed.

(** X8.  The prompt has one line per speaker, in the order of falling
    speaking time: the lines name the keys of ['speaking_time'], each
    once, and no line stands before one of a speaker who spoke
    longer. *)
Theorem speaker_info_order (speakers_time : dict str Q)
        (speakers_words : dict str Z) :
  exists (lines : list info_line) (its : list (str * Q)),
    speaker_info speakers_time speakers_words = Ok lines
    /\ Permutation its speakers_time
    /\ StronglySorted later_le its
    /\ map line_speaker lines = map fst its
    /\ Permutation (map line_speaker lines) (keys speakers_time).
Proof.
  destruct (percentage_guard_lines speakers_time speakers_words)
    as (lines & E).
  exists lines, (sorted by_time_desc speakers_time).
  assert (M : map line_speaker lines
              = map fst (sorted by_time_desc speakers_time)).
  { unfold speaker_info in E. apply info_lines_inv in E.
    unfold items in E. clear -E.
    induction E as [|it line its lines (S & _) _ IH]; [reflexivity|].
    cbn [map]. now rewrite S, IH. }
  split; [exact E|]. split; [apply sorted_perm|].
  split; [apply sorted_by_time_desc|]. split; [exact M|].
  rewrite M. apply Permutation_map, sorted_perm.
Qed.

(** X10.  When no speaking time is negative and all are below
    [2 ^ 55] seconds, the minutes and the seconds of every line of the
    prompt are those of the speaking time of its speaker, cut to whole
    seconds: sixty times the minutes plus the seconds is the floor of
    the time, and the seconds lie from 0 to 59. *)
Theorem speaker_info_minutes_seconds (speakers_time : dict str Q)
        (speakers_words : dict str Z) :
  Forall (fun it => 0 <= snd it /\ snd it < 2 ^ 55) speakers_time ->
  exists lines : list info_line,
    speaker_info speakers_time speakers_words = Ok lines
    /\ Forall (fun line =>
                 (0 <= line_secs line < 60)%Z
                 /\ exists t : Q,
                     In (line_speaker line, t) speakers_time
                     /\ (60 * line_mins line + line_secs line = Qfloor t)%Z)
              lines.
Proof.
  intros R.
  destruct (percentage_guard_lines speakers_time speakers_words)
    as (lines & E).
  exists lines. split; [exact E|].
  unfold speaker_info in E. apply info_lines_inv in E. unfold items in E.
  assert (I : forall it, In it (sorted by_time_desc speakers_time) ->
                         In it speakers_time).
  { intros it. apply Permutation_in, sorted_perm. }
  revert I E. generalize (sorted by_time_desc speakers_time).
  intros sorted_items I E.
  induction E as [|[sp t] line its ls (S & M & C & _) _ IH]; constructor.
  - cbn [fst snd] in *.
    assert (J : In (sp, t) speakers_time) by (apply I; now left).
    rewrite Forall_forall in R. destruct (R _ J) as [P U]. cbn [snd] in P, U.
    destruct (minutes_seconds t P U) as [V B].
    rewrite M, C. split; [exact B|]. exists t. split; [|exact V].
    now rewrite S.
  - apply IH. intros it J. apply I. now right.
Qed.

Lemma speaker_info_minutes_seconds_witness :
  exists lines : list info_line,
    speaker_info [(u "A", 1255 # 10); (u "B", 239 # 4)] [] = Ok lines
    /\ map line_mins lines = [2; 0]%Z
    /\ map line_secs lines = [5; 59]%Z.
Proof.
  destruct (speaker_info_minutes_seconds
              [(u "A", 1255 # 10); (u "B", 239 # 4)] [])
    as (lines & E & _).
  - repeat constructor; cbn [snd]; try discriminate; reflexivity.
  - exists lines. split; [exact E|].
    vm_compute in E. injection E as <-. split; reflexivity.
Defined.

(** *** The shares add up *)






(* ================================================================= *)
(** ** More on the calls of the gateway                               *)
(* ================================================================= *)

Lemma call_gateway_handle (post : request -> reply) (req : request) :
  call_gateway post req = Transcription.handle (post req).
Proof. reflexivity. Qed.

Lemma handle_raises (r : reply) (e : exn) :
  Transcription.handle r = Raise e -> e = TypeError.
Proof.
  unfold Transcription.handle. destruct r as [msg|body]; [discriminate|].
  destruct (content_of body) as [c|e'] eqn:C; [discriminate|].
  assert (X : e' = TypeError \/ (exists k, e' = KeyError k)
              \/ (exists m, e' = IndexError m)).
  { assert (S : forall v k x, subscr v k = Raise x ->
                  x = TypeError \/ (exists k, x = KeyError k)
                  \/ (exists m, x = IndexError m)).
    { intros v k x H. destruct v, k; cbn in H;
        try (injection H as <-; eauto; fail).
      - destruct (nth_error s i); [discriminate|]. injection H as <-. eauto.
      - unfold index in H. destruct (nth_error l i); [discriminate|].
        injection H as <-. eauto.
      - unfold getitem in H. destruct (lookup str_eqb k fields);
          [discriminate|]. injection H as <-. eauto. }
    unfold content_of in C.
    repeat match type of C with
           | bind (subscr ?v ?k) _ = _ =>
             let E := fresh "E" in
             destruct (subscr v k) eqn:E; cbn [bind] in C;
               [|injection C as <-; now apply S in E]
           end.
    now apply S in C. }
  destruct X as [-> | [(k & ->) | (m & ->)]]; [congruence | discriminate ..].
Qed.

Lemma diarization_requests (api_key : option str) (url : str)
      (post : request -> reply) (transcript : str)
      (speakers_time : dict str Q) (speakers_words : dict str Z)
      (id : Z) (language : str) :
  let outcome :=
    summarize_with_diarization api_key url post transcript
                               speakers_time speakers_words id language in
  (fst outcome = []
   /\ snd outcome
      = Ok (JStr (u "Error: NTC_API_KEY not found in environment variables"))
   /\ (api_key = None \/ api_key = Some []))
  \/ (exists req : request,
         fst outcome = [req]
         /\ snd outcome = Transcription.handle (post req)
         /\ exists k : str, api_key = Some k /\ k <> []).
Proof.
  intros outcome. unfold outcome.
  destruct api_key as [[|c k]|].
  - left. repeat split. now right.
  - right.
    assert (N : c :: k <> []) by discriminate.
    destruct (@one_request (c :: k) url post transcript speakers_time
                           speakers_words id language N) as (req & E).
    exists req. rewrite E. repeat split. now exists (c :: k).
  - left. repeat split. now left.
Qed.

(** X12.  Without a key (unset or empty) both functions return the
    text ['Error: NTC_API_KEY not found in environment variables'] and
    issue no request. *)
Theorem summarize_without_key
        (api_key : option str) (url : str)
        (post : request -> reply) (post' : Transcription.text_request -> reply)
        (transcript : str) (speakers_time : dict str Q)
        (speakers_words : dict str Z) (id : Z) (language : str) :
  api_key = None \/ api_key = Some [] ->
  summarize_with_diarization api_key url post transcript
                             speakers_time speakers_words id language
  = ([], Ok (JStr (u "Error: NTC_API_KEY not found in environment variables")))
  /\ Transcription.summarize_transcription api_key url post'
                                           transcript language
     = ([], Ok (JStr (u "Error: NTC_API_KEY not found in environment variables"))).
Proof. intros [-> | ->]; split; reflexivity. Qed.

Lemma summarize_without_key_witness :
  fst (summarize_with_diarization (Some []) (u "https://gateway")
         (fun _ => Body JNull) (u "[A]: hi") [(u "A", 1)] [(u "A", 1%Z)]
         3 (u "Thai")) = [].
Proof.
  rewrite (proj1 (summarize_without_key
                    (Some []) (u "https://gateway") (fun _ => Body JNull)
                    (fun _ => Body JNull) (u "[A]: hi")
                    [(u "A", 1)] [(u "A", 1%Z)] 3 (u "Thai")
                    (or_intror eq_refl))).
  reflexivity.
Defined.

(** X13.  With a key, when the request fails, the caller gets the text
    ['Error calling NTC API: '] followed by the text of the exception,
    and one request has been issued. *)
Theorem summarize_request_failure
        (api_key url : str) (post : request -> reply) (msg : str)
        (transcript : str) (speakers_time : dict str Q)
        (speakers_words : dict str Z) (id : Z) (language : str) :
  api_key <> [] ->
  (forall req : request, post req = Failed msg) ->
  let outcome :=
    summarize_with_diarization (Some api_key) url post transcript
                               speakers_time speakers_words id language in
  length (fst outcome) = 1%nat
  /\ snd outcome = Ok (JStr (u "Error calling NTC API: " ++ msg)).
Proof.
  intros N F outcome. subst outcome.
  destruct (diarization_requests (Some api_key) url post transcript
              speakers_time speakers_words id language)
    as [(_ & _ & [A | A]) | (req & E & S & _)].
  - discriminate.
  - congruence.
  - rewrite E, S, F. split; reflexivity.
Qed.

Lemma summarize_request_failure_witness :
  snd (summarize_with_diarization (Some (u "secret")) (u "https://gateway")
         (fun _ => Failed (u "timed out")) (u "[A]: hi")
         [(u "A", 1)] [(u "A", 1%Z)] 3 (u "Thai"))
  = Ok (JStr (u "Error calling NTC API: timed out")).
Proof.
  refine (eq_trans
            (proj2 (summarize_request_failure
                      (u "secret") (u "https://gateway")
                      (fun _ => Failed (u "timed out")) (u "timed out")
                      (u "[A]: hi") [(u "A", 1)] [(u "A", 1%Z)] 3 (u "Thai")
                      _ (fun _ => eq_refl))) _).
  - discriminate.
  - vm_compute. reflexivity.
Defined.

(** X14.  With a key, when the body of the answer is an object whose
    ["choices"] is a list that starts with an object whose ["message"]
    is an object with a ["content"], the caller gets that content, as
    it is, whatever else the body holds. *)
Theorem summarize_returns_content
        (api_key url : str) (post : request -> reply)
        (fields first message : dict str json) (others : list json)
        (content : json)
        (transcript : str) (speakers_time : dict str Q)
        (speakers_words : dict str Z) (id : Z) (language : str) :
  api_key <> [] ->
  (forall req : request, post req = Body (JObj fields)) ->
  lookup str_eqb (u "choices") fields = Some (JArr (JObj first :: others)) ->
  lookup str_eqb (u "message") first = Some (JObj message) ->
  lookup str_eqb (u "content") message = Some content ->
  snd (summarize_with_diarization (Some api_key) url post transcript
                                  speakers_time speakers_words id language)
  = Ok content.
Proof.
  intros N B C M V.
  destruct (diarization_requests (Some api_key) url post transcript
              speakers_time speakers_words id language)
    as [(_ & _ & [A | A]) | (req & _ & S & _)].
  - discriminate.
  - congruence.
  - rewrite S, B. unfold Transcription.handle, content_of.
    cbn [subscr]. unfold getitem at 1. rewrite C.
    cbn [bind subscr index nth_error]. unfold getitem at 1. rewrite M.
    cbn [bind subscr]. unfold getitem. now rewrite V.
Qed.

(** X15.  With a key, when the body of the answer is an object without
    ["choices"], the caller gets ['Error parsing response: \'choices\''];
    when its ["choices"] is the empty list, the caller gets
    ['Error parsing response: list index out of range']. *)
Theorem summarize_parse_errors
        (api_key url : str) (post : request -> reply)
        (fields : dict str json)
        (transcript : str) (speakers_time : dict str Q)
        (speakers_words : dict str Z) (id : Z) (language : str) :
  api_key <> [] ->
  (forall req : request, post req = Body (JObj fields)) ->
  let outcome :=
    snd (summarize_with_diarization (Some api_key) url post transcript
                                    speakers_time speakers_words id language)
  in
  (lookup str_eqb (u "choices") fields = None ->
   outcome = Ok (JStr (u "Error parsing response: 'choices'")))
  /\ (lookup str_eqb (u "choices") fields = Some (JArr []) ->
      outcome = Ok (JStr (u "Error parsing response: list index out of range"))).
Proof.
  intros N B outcome. unfold outcome.
  destruct (diarization_requests (Some api_key) url post transcript
              speakers_time speakers_words id language)
    as [(_ & _ & [A | A]) | (req & _ & S & _)];
    [discriminate | congruence |].
  rewrite S, B. unfold Transcription.handle, content_of.
  cbn [subscr]. unfold getitem.
  split; intros C; rewrite C; cbn [bind subscr index nth_error].
  - unfold repr_str. vm_compute. reflexivity.
  - vm_compute. reflexivity.
Qed.

Lemma summarize_returns_content_witness :
  snd (summarize_with_diarization (Some (u "secret")) (u "https://gateway")
         (fun _ => Body (JObj [(u "id", JNum 7);
                               (u "choices",
                                JArr [JObj [(u "message",
                                             JObj [(u "role", JStr (u "assistant"));
                                                   (u "content", JStr (u "ok"))])]])]))
         (u "[A]: hi") [(u "A", 1)] [(u "A", 1%Z)] 3 (u "Thai"))
  = Ok (JStr (u "ok")).
Proof.
  apply (summarize_returns_content
           (u "secret") (u "https://gateway") _
           [(u "id", JNum 7);
            (u "choices",
             JArr [JObj [(u "message",
                          JObj [(u "role", JStr (u "assistant"));
                                (u "content", JStr (u "ok"))])]])]
           [(u "message", JObj [(u "role", JStr (u "assistant"));
                                (u "content", JStr (u "ok"))])]
           [(u "role", JStr (u "assistant")); (u "content", JStr (u "ok"))]
           []).
  - discriminate.
  - reflexivity.
  - vm_compute. reflexivity.
  - vm_compute. reflexivity.
  - vm_compute. reflexivity.
Defined.

Lemma summarize_parse_errors_witness :
  snd (summarize_with_diarization (Some (u "secret")) (u "https://gateway")
         (fun _ => Body (JObj [(u "error", JStr (u "quota"))]))
         (u "[A]: hi") [(u "A", 1)] [(u "A", 1%Z)] 3 (u "Thai"))
  = Ok (JStr (u "Error parsing response: 'choices'")).
Proof.
  apply (proj1 (summarize_parse_errors
                  (u "secret") (u "https://gateway")
                  (fun _ => Body (JObj [(u "error", JStr (u "quota"))]))
                  [(u "error", JStr (u "quota"))]
                  (u "[A]: hi") [(u "A", 1)] [(u "A", 1%Z)] 3 (u "Thai")
                  ltac:(discriminate) (fun _ => eq_refl))).
  vm_compute. reflexivity.
Defined.

(* ================================================================= *)
(** ** More on the endpoint                                           *)
(* ================================================================= *)

Lemma rfind_from_spec (c : char) (p : str) :
  forall i found : Z,
    (rfind_from c p i found = found /\ ~ In c p)
    \/ (exists a b : str,
           p = a ++ c :: b /\ ~ In c b
           /\ rfind_from c p i found = (i + Z.of_nat (length a))%Z).
Proof.
  induction p as [|x p IH]; intros i found; cbn [rfind_from].
  - left. split; [reflexivity | intros []].
  - destruct (IH (i + 1)%Z (if (x =? c)%N then i else found))
      as [[E N] | (a & b & -> & N & E)].
    + destruct (N.eqb_spec x c) as [-> | D].
      * right. exists [], p. cbn [app length]. repeat split; [exact N|].
        rewrite E. lia.
      * left. split; [exact E|]. intros [I | I]; [congruence | tauto].
    + right. exists (x :: a), b. cbn [app length]. repeat split; [exact N|].
      rewrite E. lia.
Qed.

Lemma rfind_spec (c : char) (p : str) :
  (rfind c p = (-1)%Z /\ ~ In c p)
  \/ (exists a b : str,
         p = a ++ c :: b /\ ~ In c b /\ rfind c p = Z.of_nat (length a)).
Proof.
  unfold rfind. destruct (rfind_from_spec c p 0 (-1)) as [H | (a & b & H)].
  - now left.
  - right. exists a, b. destruct H as (P & N & E). now rewrite E.
Qed.

Lemma in_skipn (A : Type) (x : A) (n : nat) (l : list A) :
  In x (skipn n l) -> In x l.
Proof.
  revert l. induction n as [|n IH]; intros [|y l] H; cbn in *; auto.
Qed.

Lemma later_suffix (a a' b b' : str) (c d : char) :
  a ++ c :: b = a' ++ d :: b' -> (length a' < length a)%nat ->
  forall x : char, In x b -> In x b'.
Proof.
  intros E L x I.
  assert (K : skipn (S (length a)) (a ++ c :: b) = b).
  { rewrite skipn_app, skipn_all2 by lia.
    replace (S (length a) - length a)%nat with 1%nat by lia. reflexivity. }
  rewrite E in K. rewrite skipn_app in K.
  rewrite skipn_all2 in K by lia. cbn [app] in K.
  destruct (S (length a) - length a')%nat as [|n] eqn:D; [lia|].
  cbn [skipn] in K. rewrite <- K in I. now apply in_skipn in I.
Qed.

(** X16.  The extension the endpoint tests is cut from the file name
    by [os.path.splitext]: root and extension together are the name,
    and the extension is either empty or a dot followed by characters
    among which there is neither a dot nor a slash. *)
Theorem splitext_parts (p : str) :
  fst (splitext p) ++ snd (splitext p) = p
  /\ (snd (splitext p) = []
      \/ exists e : str,
          snd (splitext p) = 46%N :: e
          /\ Forall (fun c => c <> 46%N /\ c <> 47%N) e).
Proof.
  unfold splitext.
  destruct ((rfind 46%N p >? rfind 47%N p)%Z
            && existsb (fun x => negb (x =? 46)%N)
                       (slice p (rfind 47%N p + 1) (rfind 46%N p))) eqn:B;
    cbn [fst snd].
  - split; [apply firstn_skipn|]. right.
    apply andb_true_iff in B. destruct B as [G _].
    rewrite Z.gtb_ltb in G. apply Z.ltb_lt in G.
    destruct (rfind_spec 46%N p) as [[E _] | (a & b & P & N & E)].
    + destruct (rfind_spec 47%N p) as [[E' _] | (a' & b' & _ & _ & E')]; lia.
    + exists b. rewrite E, Nat2Z.id. split.
      * rewrite P at 1. rewrite skipn_app, skipn_all2 by lia.
        now rewrite Nat.sub_diag.
      * apply Forall_forall. intros x I. split; [intros ->; tauto|].
        intros ->.
        destruct (rfind_spec 47%N p) as [[_ N'] | (a' & b' & P' & N' & E')].
        -- apply N'. rewrite P. apply in_or_app. right. now right.
        -- apply N'. rewrite P in P'.
           apply (later_suffix a a' b b' 46%N 47%N P'); [lia | exact I].
  - split; [apply app_nil_r | now left].
Qed.

(** X17.  No upload is ever answered with a result while [process] has
    the parameters it has: the endpoint calls it with the keyword
    [speaker_names], which is not one of them, so the call raises
    [TypeError] before any transcription, the handler turns that into
    a 500, and every request ends in a 400, in a 500 or, when
    [json.loads] raises what the endpoint does not catch, in that
    exception, which the server answers with a 500 as well.  The call
    of [main.py], with [meeting_type_id] alone, does bind. *)
Theorem endpoint_never_returns
        (lower : str -> str) (json_loads : str -> loads_outcome)
        (temp_dir : str) (Response : Type)
        (write_upload : str -> option str) (type_error_text : str)
        (process_body : str -> Z -> str + Response)
        (filename : str) (meeting_type_id : Z) (speaker_names : str) :
  let outcome :=
    snd (transcribe_summarize
           lower json_loads temp_dir
           (Call.try_body write_upload type_error_text process_body)
           filename meeting_type_id speaker_names) in
  Call.binds Call.process_parameters 1 [u "meeting_type_id"] = true
  /\ Call.binds Call.process_parameters 1
                [u "meeting_type_id"; u "speaker_names"] = false
  /\ ((exists (status_code : Z) (detail : str),
          outcome = HTTPException Response status_code detail
          /\ (status_code = 400 \/ status_code = 500)%Z)
      \/ (exists exception : str,
             json_loads speaker_names = OtherError exception
             /\ outcome = Unhandled Response exception)).
Proof.
  intros outcome.
  assert (B : Call.binds Call.process_parameters 1
                         [u "meeting_type_id"; u "speaker_names"] = false)
    by (vm_compute; reflexivity).
  split; [vm_compute; reflexivity|]. split; [exact B|].
  unfold outcome, transcribe_summarize.
  destruct ((meeting_type_id <? 0)%Z || (meeting_type_id >? 11)%Z).
  - left. eexists _, _. cbn [snd]. split; [reflexivity | now left].
  - assert (Body :
              forall names : list json,
              exists (status_code : Z) (detail : str),
                snd (if negb (mem (lower (snd (splitext filename)))
                                  allowed_extensions)
                     then ([], HTTPException Response 400
                                 (u "Unsupported file type. Allowed: "
                                  ++ join (u ", ") allowed_extensions))
                     else
                       match Call.try_body write_upload type_error_text
                                           process_body
                                           (path_join temp_dir filename)
                                           meeting_type_id names with
                       | inr response =>
                         ([Mkdtemp;
                           TryBody (path_join temp_dir filename)
                                   meeting_type_id names;
                           Rmtree temp_dir], Returned response)
                       | inl e =>
                         ([Mkdtemp;
                           TryBody (path_join temp_dir filename)
                                   meeting_type_id names;
                           Rmtree temp_dir],
                          HTTPException Response 500
                                        (u "Processing error: " ++ e))
                       end)
                = HTTPException Response status_code detail
                /\ (status_code = 400 \/ status_code = 500)%Z).
    { intros names.
      destruct (negb (mem (lower (snd (splitext filename)))
                          allowed_extensions)).
      - eexists _, _. cbn [snd]. split; [reflexivity | now left].
      - unfold Call.try_body. rewrite B.
        destruct (write_upload (path_join temp_dir filename));
          eexists _, _; cbn [snd]; (split; [reflexivity | now right]). }
    destruct (json_loads speaker_names) as [value| |exception].
    + left. apply Body.
    + left. apply Body.
    + right. exists exception. split; reflexivity.
Qed.

(* ================================================================= *)
(** ** The choice of the meeting type and the printed transcript      *)
(* ================================================================= *)

Lemma choose_in_range (answers : list str) (id : Z) :
  Main.choose_meeting_type answers = Some id -> (0 <= id <= 11)%Z.
Proof.
  induction answers as [|a rest IH]; cbn [Main.choose_meeting_type];
    [discriminate|].
  destruct (int (strip a)) as [n|e]; [|exact IH].
  destruct ((0 <=? n)%Z && (n <=? 11)%Z) eqn:B; [|exact IH].
  intros H. injection H as <-. apply andb_true_iff in B. lia.
Qed.

(** X18.  The loop that asks for the meeting type ends only with an
    integer from 0 to 11, so the subscript [MEETING_TYPES[meeting_type_id]]
    that follows it finds an entry and raises no [KeyError]. *)
Theorem selected_type_found (answers : list str) (selected : result meeting_type) :
  Main.selected_type answers = Some selected ->
  exists (id : Z) (info : meeting_type),
    Main.choose_meeting_type answers = Some id
    /\ (0 <= id <= 11)%Z
    /\ selected = Ok info
    /\ entry id = Some info.
Proof.
  unfold Main.selected_type.
  destruct (Main.choose_meeting_type answers) as [id|] eqn:C; [|discriminate].
  intros H. injection H as <-. pose proof (choose_in_range _ _ C) as R.
  assert (X : exists info, entry id = Some info).
  { assert (D : (id = 0 \/ id = 1 \/ id = 2 \/ id = 3 \/ id = 4 \/ id = 5
                 \/ id = 6 \/ id = 7 \/ id = 8 \/ id = 9 \/ id = 10
                 \/ id = 11)%Z) by lia.
    repeat (destruct D as [-> | D]); try subst id;
      (eexists; unfold entry; cbn [lookup MEETING_TYPES Z.eqb Pos.eqb];
       reflexivity). }
  destruct X as (info & E). exists id, info.
  split; [reflexivity|]. split; [exact R|]. split; [|exact E].
  unfold getitem. unfold entry in E. now rewrite E.
Qed.

Lemma selected_type_found_witness :
  exists (id : Z) (info : meeting_type),
    Main.choose_meeting_type [u "abc"; u "12"; u " 7 "] = Some id
    /\ entry id = Some info.
Proof.
  destruct (selected_type_found
              [u "abc"; u "12"; u " 7 "]
              (getitem Z.eqb str_of_Z MEETING_TYPES 7%Z))
    as (id & info & C & _ & _ & E).
  - vm_compute. reflexivity.
  - now exists id, info.
Defined.

Lemma transcript_table_accepted (segs : list segment) :
  Forall accepted segs ->
  exists lines : list str,
    Main.transcript_table segs = Ok lines /\ length lines = length segs.
Proof.
  induction 1 as [|seg segs (label & E) _ (lines & T & L)].
  - now exists [].
  - cbn [Main.transcript_table]. rewrite E, T. cbn [bind].
    eexists. split; [reflexivity|]. cbn [length]. now rewrite L.
Qed.

(** X19.  What [process] returns, [print_results] can print: on the
    segments of its output the table of the transcript is built without
    an exception, one line per segment of the input. *)
Theorem printed_transcript (raw : list segment) (out : full_transcript) :
  process raw = Ok out ->
  exists lines : list str,
    Main.transcript_table (segments out) = Ok lines
    /\ length lines = length raw.
Proof.
  intros H. destruct (process_inv _ _ H) as (st & F & S & _).
  apply for_each_returns in F. rewrite <- S in F.
  destruct (transcript_table_accepted _ F) as (lines & T & L).
  exists lines. split; [exact T|].
  rewrite L, S. apply sorted_length.
Qed.

Lemma printed_transcript_witness :
  exists (out : full_transcript) (lines : list str),
    process sample_segments = Ok out
    /\ Main.transcript_table (segments out) = Ok lines.
Proof.
  destruct (process_accepted sample_segments sample_accepted) as (out & E).
  destruct (printed_transcript sample_segments out E) as (lines & T & _).
  now exists out, lines.
Defined.

(* ================================================================= *)
(** ** The exports                                                    *)
(* ================================================================= *)

Lemma label_default (format_speaker_func : option (option str -> result str))
      (seg : segment) :
  default_formatter format_speaker_func ->
  ExportUtils.label format_speaker_func seg = format_speaker (seg_speaker seg).
Proof.
  intros [-> | ->]; unfold ExportUtils.label;
    (destruct (seg_speaker seg) as [[|c s]|]; cbn [orb]; try reflexivity;
     destruct (startswith (u "SPEAKER_") (c :: s)) eqn:S; [reflexivity|];
     unfold format_speaker; cbn [truthy the andb]; now rewrite S).
Qed.

Lemma emoji_class_threshold (c : char) :
  (c <= 1114111)%N -> ExportUtils.in_emoji_class c = (9410 <=? c)%N.
Proof.
  intros H. unfold ExportUtils.in_emoji_class.
  destruct (N.leb_spec 9410 c) as [G|G].
  - destruct (N.leb_spec c 127569) as [L|L].
    + replace ((9410 <=? c) && (c <=? 127569))%N with true
        by (symmetry; apply andb_true_iff; split; apply N.leb_le; lia).
      now rewrite !orb_true_r.
    + replace ((65536 <=? c) && (c <=? 1114111))%N with true
        by (symmetry; apply andb_true_iff; split; apply N.leb_le; lia).
      now rewrite !orb_true_r.
  - repeat (apply orb_false_iff; split); apply andb_false_iff; left;
      first [reflexivity | apply N.leb_gt; lia].
Qed.

(** X21.  [remove_emoji] removes much more than emoji: of a text of
    Unicode characters it keeps exactly the characters below U+24C2
    (and then strips the white space at both ends), so every character
    from U+24C2 on, Chinese, Japanese and Korean script included, is
    removed from the summary, while Thai and Latin text stays. *)
Theorem remove_emoji_threshold (text : str) :
  Forall (fun c => (c <= 1114111)%N) text ->
  ExportUtils.remove_emoji text = strip (filter (fun c => (c <? 9410)%N) text).
Proof.
  intros H. unfold ExportUtils.remove_emoji. f_equal.
  apply filter_ext_in. intros c I.
  rewrite Forall_forall in H. rewrite (emoji_class_threshold c (H c I)).
  now rewrite N.ltb_antisym.
Qed.

Lemma remove_emoji_threshold_witness :
  ExportUtils.remove_emoji (u " สรุป 会議 → ok ✅ ") = u "สรุป  → ok".
Proof.
  rewrite (remove_emoji_threshold (u " สรุป 会議 → ok ✅ ")).
  - vm_compute. reflexivity.
  - apply Forall_forall. intros c I.
    assert (B : forallb (fun x => (x <=? 1114111)%N)
                        (u " สรุป 会議 → ok ✅ ") = true)
      by (vm_compute; reflexivity).
    rewrite forallb_forall in B. apply N.leb_le, B, I.
Defined.

Lemma one_block (b1 b2 b3 b4 : bool) (o : option Z)
      (f : Z -> ExportUtils.block) (n a2 a3 a4 a5 : ExportUtils.block) :
  length (if b1 then match o with
                     | Some level => [f level]
                     | None => [n]
                     end
          else if b2 then [a2]
          else if b3 then [a3]
          else if b4 then [a4] else [a5]) = 1%nat.
Proof. destruct b1, b2, b3, b4, o; reflexivity. Qed.

Lemma line_blocks_length (line : str) :
  length (ExportUtils.line_blocks line) = if not_blank line then 1%nat else 0%nat.
Proof.
  unfold ExportUtils.line_blocks, not_blank.
  destruct (strip line) as [|c l]; [reflexivity|].
  apply one_block.
Qed.

Lemma line_blocks_body (lines : list str) :
  Forall2 (fun line b => ExportUtils.line_blocks line = [b])
          (filter not_blank lines)
          (flat_map ExportUtils.line_blocks lines).
Proof.
  induction lines as [|line lines IH]; [constructor|].
  cbn [flat_map filter]. pose proof (line_blocks_length line) as L.
  destruct (not_blank line).
  - destruct (ExportUtils.line_blocks line) as [|b [|b' bs]] eqn:E;
      try discriminate.
    cbn [app]. constructor; [exact E | exact IH].
  - destruct (ExportUtils.line_blocks line); [exact IH | discriminate].
Qed.

Lemma finish_inv (save : str -> list ExportUtils.block -> option exn)
      (doc d : list ExportUtils.block) (output_path r : str) :
  ExportUtils.finish save doc output_path = Ok (Some d, r) ->
  d = doc /\ r = output_path
  /\ forallb ExportUtils.xml_compatible (ExportUtils.texts doc) = true
  /\ save output_path doc = None.
Proof.
  unfold ExportUtils.finish.
  destruct (forallb ExportUtils.xml_compatible (ExportUtils.texts doc));
    [|discriminate].
  destruct (save output_path doc); [discriminate|].
  intros H. injection H as <- <-. now repeat split.
Qed.

(** X22.  When [export_summary_to_docx] saves a document, it returns
    [output_path], and the document is: the title, its spacer, the
    section of the participants, and then, line by line, the one
    heading or paragraph of each line of the summary that is not
    blank; a blank line adds nothing.  Every text of the document is
    XML-compatible then, and [doc.save] has raised nothing. *)
Theorem summary_blocks (save : str -> list ExportUtils.block -> option exn)
        (summary_text output_path : str)
        (speaker_summary : option speaker_summary) (meeting_type_id : Z)
        (doc : list ExportUtils.block) (returned : str) :
  ExportUtils.export_summary_to_docx true save summary_text output_path
                                     speaker_summary meeting_type_id
  = Ok (Some doc, returned) ->
  exists section body : list ExportUtils.block,
    ExportUtils.participant_section speaker_summary meeting_type_id
    = Ok section
    /\ returned = output_path
    /\ doc = [ExportUtils.Heading (u "สรุปการประชุม") 0 true;
              ExportUtils.Paragraph None []]
             ++ section ++ body
    /\ Forall2 (fun line b => ExportUtils.line_blocks line = [b])
               (filter not_blank (split_on 10%N summary_text)) body
    /\ (forall line : str,
          In line (split_on 10%N summary_text) -> not_blank line = false ->
          ExportUtils.line_blocks line = [])
    /\ forallb ExportUtils.xml_compatible (ExportUtils.texts doc) = true
    /\ save output_path doc = None.
Proof.
  unfold ExportUtils.export_summary_to_docx. cbn [negb].
  destruct (ExportUtils.participant_section speaker_summary meeting_type_id)
    as [section|e]; cbn [bind]; [|discriminate].
  intros H. apply finish_inv in H. destruct H as (-> & -> & X & S).
  exists section,
    (flat_map ExportUtils.line_blocks (split_on 10%N summary_text)).
  split; [reflexivity|]. split; [reflexivity|]. split; [reflexivity|].
  split; [apply line_blocks_body|]. split; [|now split].
  intros line _ B. pose proof (line_blocks_length line) as L.
  rewrite B in L. now destruct (ExportUtils.line_blocks line).
Qed.

Lemma summary_blocks_witness :
  exists doc : list ExportUtils.block,
    ExportUtils.export_summary_to_docx
      true (fun _ _ => None)
      (u "# Title" ++ nl ++ nl ++ u "- a **b**") (u "out.docx") None 0
    = Ok (Some doc, u "out.docx")
    /\ doc = [ExportUtils.Heading (u "สรุปการประชุม") 0 true;
              ExportUtils.Paragraph None [];
              ExportUtils.Heading (u "Title") 1 false;
              ExportUtils.Paragraph (Some (u "List Bullet"))
                                    [ExportUtils.plain (u "a ");
                                     ExportUtils.bold (u "b");
                                     ExportUtils.plain []]].
Proof.
  destruct (ExportUtils.export_summary_to_docx
              true (fun _ _ => None)
              (u "# Title" ++ nl ++ nl ++ u "- a **b**") (u "out.docx")
              None 0) as [[[doc|] returned]|e] eqn:E;
    try (vm_compute in E; discriminate).
  destruct (summary_blocks _ _ _ _ _ _ _ E)
    as (section & body & S & -> & D & B & _).
  exists doc. split; [reflexivity|].
  vm_compute in E. injection E as <-. vm_compute. reflexivity.
Defined.

(* ----------------------------------------------------------------- *)
(** *** The combined text *)

Lemma merge_head (g : str * list str) (gs : list (str * list str)) :
  exists ts rest, merge g gs = (fst g, snd g ++ ts) :: rest.
Proof.
  destruct g as [s ts0]. destruct gs as [|[s' ts'] gs']; cbn.
  - exists [], []. now rewrite app_nil_r.
  - destruct (str_eqb s s').
    + now exists ts', gs'.
    + exists [], ((s', ts') :: gs'). now rewrite app_nil_r.
Qed.

Lemma merge_merge (s : str) (ts : list str) (t : str)
      (gs : list (str * list str)) :
  merge (s, ts) (merge (s, [t]) gs) = merge (s, ts ++ [t]) gs.
Proof.
  destruct gs as [|[s' ts'] gs']; cbn.
  - now rewrite str_eqb_refl.
  - destruct (str_eqb s s') eqn:E; cbn; rewrite ?str_eqb_refl, ?E.
    + now rewrite <- app_assoc.
    + reflexivity.
Qed.

Lemma merge_other (s s' : str) (ts : list str) (t : str)
      (gs : list (str * list str)) :
  str_eqb s' s = false ->
  merge (s, ts) (merge (s', [t]) gs) = (s, ts) :: merge (s', [t]) gs.
Proof.
  intros N. destruct (merge_head (s', [t]) gs) as (ts' & rest & ->). cbn.
  assert (N' : str_eqb s s' = false).
  { destruct (str_eqb s s') eqn:E; [|reflexivity].
    apply str_eqb_eq in E. subst. now rewrite str_eqb_refl in N. }
  now rewrite N'.
Qed.

Lemma absorb_groups (pairs : list (str * str)) :
  forall (lines : list str) (s : str) (ts : list str),
    s <> [] -> ts <> [] ->
    Forall (fun pair => fst pair <> []) pairs ->
    ExportUtils.flush
      (fold_left absorb pairs
                 {| ExportUtils.combined_lines := lines;
                    ExportUtils.current_speaker := Some s;
                    ExportUtils.current_text := ts |})
    = lines ++ map render (merge (s, ts) (group_adjacent pairs)).
Proof.
  induction pairs as [|[s' t'] rest IH]; intros lines s ts Hs Hts Hp.
  - cbn. destruct s; [easy|]. destruct ts; [easy|]. reflexivity.
  - inversion Hp as [|? ? Hs' Hrest]; subst. cbn [fst] in Hs'.
    cbn [fold_left group_adjacent]. unfold absorb at 2.
    cbn [ExportUtils.current_speaker ExportUtils.combined_lines
         ExportUtils.current_text fst snd].
    destruct (str_eqb s' s) eqn:E.
    + apply str_eqb_eq in E. subst s'.
      rewrite IH; [|assumption|now destruct ts|assumption].
      now rewrite merge_merge.
    + rewrite IH; [|assumption|easy|assumption].
      rewrite merge_other by assumption.
      unfold ExportUtils.flush.
      cbn [ExportUtils.current_speaker ExportUtils.combined_lines
           ExportUtils.current_text].
      destruct s; [easy|]. destruct ts; [easy|].
      now rewrite <- app_assoc.
Qed.

Lemma absorb_from_start (pairs : list (str * str)) :
  Forall (fun pair => fst pair <> []) pairs ->
  ExportUtils.flush
    (fold_left absorb pairs
               {| ExportUtils.combined_lines := [];
                  ExportUtils.current_speaker := None;
                  ExportUtils.current_text := [] |})
  = map render (group_adjacent pairs).
Proof.
  destruct pairs as [|[s t] rest]; intros Hp; [reflexivity|].
  inversion Hp as [|? ? Hs Hrest]; subst. cbn [fst] in Hs.
  cbn [fold_left group_adjacent]. unfold absorb at 2.
  cbn [ExportUtils.current_speaker ExportUtils.flush
       ExportUtils.combined_lines fst snd].
  now rewrite absorb_groups.
Qed.

Lemma combine_absorb (format_speaker_func : option (option str -> result str))
      (segs : list segment) :
  default_formatter format_speaker_func ->
  forall st st' : ExportUtils.combining,
    ExportUtils.combine format_speaker_func segs st = Ok st' ->
    exists pairs : list (str * str),
      Forall2 labelled segs pairs /\ st' = fold_left absorb pairs st.
Proof.
  intros Hf. induction segs as [|seg rest IH]; intros st st' H.
  - cbn in H. injection H as <-. exists []. split; [constructor|reflexivity].
  - cbn [ExportUtils.combine] in H. unfold ExportUtils.combine_step in H.
    rewrite (label_default _ seg Hf) in H.
    destruct (format_speaker (seg_speaker seg)) as [speaker|e] eqn:F;
      [|discriminate].
    cbn [bind] in H.
    assert (A : absorb st (speaker, text_of seg)
                = if match ExportUtils.current_speaker st with
                     | Some current => str_eqb speaker current
                     | None => false
                     end
                  then {| ExportUtils.combined_lines := ExportUtils.combined_lines st;
                          ExportUtils.current_speaker := ExportUtils.current_speaker st;
                          ExportUtils.current_text :=
                            ExportUtils.current_text st ++ [text_of seg] |}
                  else {| ExportUtils.combined_lines := ExportUtils.flush st;
                          ExportUtils.current_speaker := Some speaker;
                          ExportUtils.current_text := [text_of seg] |})
      by reflexivity.
    destruct (match ExportUtils.current_speaker st with
              | Some current => str_eqb speaker current
              | None => false
              end); cbn [bind] in H;
      destruct (IH _ _ H) as (pairs & P & ->);
      exists ((speaker, text_of seg) :: pairs);
      (split; [constructor; [now split|assumption]
              |cbn [fold_left]; now rewrite A]).
Qed.

Lemma labelled_not_nil (segs : list segment) (pairs : list (str * str)) :
  Forall2 labelled segs pairs -> Forall (fun pair => fst pair <> []) pairs.
Proof.
  induction 1 as [|seg pair segs pairs [F _] _ IH]; constructor; [|assumption].
  exact (proj1 (format_speaker_label _ _ F)).
Qed.

Lemma expand_merge (g : str * list str) (gs : list (str * list str)) :
  flat_map expand (merge g gs) = expand g ++ flat_map expand gs.
Proof.
  destruct g as [s ts]. destruct gs as [|[s' ts'] gs']; cbn; [reflexivity|].
  destruct (str_eqb s s') eqn:E; cbn; [|reflexivity].
  apply str_eqb_eq in E. subst s'. unfold expand. cbn [fst snd].
  now rewrite map_app, <- app_assoc.
Qed.

Lemma expand_groups (pairs : list (str * str)) :
  flat_map expand (group_adjacent pairs) = pairs.
Proof.
  induction pairs as [|[s t] rest IH]; [reflexivity|].
  cbn [group_adjacent]. rewrite expand_merge, IH. reflexivity.
Qed.

Lemma neighbours_merge (s : str) (t : str) (gs : list (str * list str)) :
  neighbours_differ gs -> neighbours_differ (merge (s, [t]) gs).
Proof.
  destruct gs as [|[s' ts'] gs']; intros H; cbn; [exact I|].
  destruct (str_eqb s s') eqn:E.
  - apply str_eqb_eq in E. subst s'. destruct gs'; [exact I|]. exact H.
  - split; [|exact H]. cbn. intros ->. now rewrite str_eqb_refl in E.
Qed.

Lemma neighbours_groups (pairs : list (str * str)) :
  neighbours_differ (group_adjacent pairs).
Proof.
  induction pairs as [|[s t] rest IH]; [exact I|].
  cbn [group_adjacent]. now apply neighbours_merge.
Qed.

(** X20.  The combined text of the exported transcript has one line
    for every longest run of successive segments (in the order of
    their start) with the same speaker label: the line is
    ['[label]: '] and the stripped texts of the run joined by spaces.
    No text is dropped or moved, and two lines that follow each other
    have different speakers. *)
Theorem combined_text_groups (segments : list segment) (lines : list str) :
  ExportUtils.combined None segments = Ok lines ->
  exists pairs : list (str * str),
    Forall2 labelled (sorted by_start segments) pairs
    /\ lines = map render (group_adjacent pairs)
    /\ flat_map expand (group_adjacent pairs) = pairs
    /\ neighbours_differ (group_adjacent pairs).
Proof.
  unfold ExportUtils.combined. intros H.
  destruct (ExportUtils.combine None (sorted by_start segments) _)
    as [st|e] eqn:C; [|discriminate].
  cbn [bind] in H. injection H as <-.
  destruct (combine_absorb None _ (or_introl eq_refl) _ _ C) as (pairs & P & ->).
  exists pairs. split; [assumption|]. split.
  - apply absorb_from_start. eapply labelled_not_nil; eassumption.
  - split; [apply expand_groups|apply neighbours_groups].
Qed.

Lemma combined_text_groups_witness :
  exists pairs : list (str * str),
    Forall2 labelled (sorted by_start sample_segments) pairs
    /\ [u "[Unknown]: x"; u "[คนพูด 1]:  a b"]
       = map render (group_adjacent pairs)
    /\ flat_map expand (group_adjacent pairs) = pairs
    /\ neighbours_differ (group_adjacent pairs).
Proof.
  apply (combined_text_groups sample_segments).
  vm_compute. reflexivity.
Defined.

(* ----------------------------------------------------------------- *)
(** *** Bold text *)

Lemma span_not_star_app (s : str) :
  forall a b : str, ExportUtils.span_not_star s = (a, b) ->
    s = a ++ b /\ Forall (fun c => not_star c = true) a
    /\ match b with [] => True | c :: _ => c = 42%N end.
Proof.
  induction s as [|c t IH]; intros a b H; cbn in H.
  - injection H as <- <-. repeat split. constructor.
  - destruct (N.eqb_spec c 42) as [->|N].
    + injection H as <- <-. repeat split. constructor.
    + destruct (ExportUtils.span_not_star t) as [a' b'] eqn:E.
      injection H as <- <-. destruct (IH _ _ eq_refl) as (-> & F & B).
      repeat split; [|assumption].
      constructor; [|assumption].
      unfold not_star. now apply negb_true_iff, N.eqb_neq.
Qed.

Lemma span_not_star_run (b rest : str) :
  Forall (fun c => not_star c = true) b ->
  ExportUtils.span_not_star (b ++ 42%N :: rest) = (b, 42%N :: rest).
Proof.
  induction 1 as [|c b Hc _ IH]; [reflexivity|].
  cbn. unfold not_star in Hc. apply negb_true_iff in Hc. rewrite Hc.
  now rewrite IH.
Qed.

Ltac other_than_star c H N :=
  exfalso; destruct c as [|p]; [discriminate H|];
  repeat (destruct p as [p|p|]; try discriminate H); now elim N.

Lemma match_bold_inv (s m : str) :
  ExportUtils.match_bold s = Some m ->
  exists body rest : str,
    s = m ++ rest /\ m = u "**" ++ body ++ u "**" /\ body <> []
    /\ Forall (fun c => not_star c = true) body.
Proof.
  unfold ExportUtils.match_bold. intros H.
  destruct s as [|c1 s]; [discriminate|].
  destruct (N.eqb_spec c1 42) as [->|N1]; [|other_than_star c1 H N1].
  destruct s as [|c2 t]; [discriminate|].
  destruct (N.eqb_spec c2 42) as [->|N2]; [|other_than_star c2 H N2].
  destruct (ExportUtils.span_not_star t) as [body after] eqn:E.
  destruct (span_not_star_app _ _ _ E) as (-> & F & _).
  destruct body as [|b0 body]; [discriminate|].
  destruct after as [|a1 after]; [discriminate|].
  destruct (N.eqb_spec a1 42) as [->|M1]; [|other_than_star a1 H M1].
  destruct after as [|a2 rest]; [discriminate|].
  destruct (N.eqb_spec a2 42) as [->|M2]; [|other_than_star a2 H M2].
  injection H as <-. exists (b0 :: body), rest.
  split; [|split; [reflexivity|split; [discriminate|assumption]]].
  change (u "**") with [42%N; 42%N]. cbn [app].
  do 3 f_equal. now rewrite <- app_assoc.
Qed.

Lemma match_bold_other (c : char) (t : str) :
  c <> 42%N -> ExportUtils.match_bold (c :: t) = None.
Proof.
  intros N. unfold ExportUtils.match_bold.
  destruct c as [|p]; [reflexivity|].
  repeat (destruct p as [p|p|]; try reflexivity). now elim N.
Qed.

Lemma match_bold_run (b rest : str) :
  b <> [] -> Forall (fun c => not_star c = true) b ->
  ExportUtils.match_bold (u "**" ++ b ++ u "**" ++ rest)
  = Some (u "**" ++ b ++ u "**").
Proof.
  intros Hb F. change (u "**") with [42%N; 42%N]. cbn [app].
  unfold ExportUtils.match_bold. cbv beta iota.
  assert (R := span_not_star_run b (42%N :: rest) F).
  unfold str, char in *. rewrite R.
  destruct b; [easy|reflexivity].
Qed.

Lemma split_bold_concat (s : str) :
  forall (k : nat) (cur : str),
    concat (ExportUtils.split_bold k cur s) = rev cur ++ skipn k s.
Proof.
  induction s as [|c t IH]; intros k cur.
  - cbn. now rewrite skipn_nil, app_nil_r.
  - cbn [ExportUtils.split_bold]. destruct k as [|k].
    + destruct (ExportUtils.match_bold (c :: t)) as [m|] eqn:M.
      * destruct (match_bold_inv _ _ M) as (body & rest & S & Hm & _).
        cbn [concat]. rewrite IH. cbn [rev app skipn]. f_equal.
        assert (L : (1 <= length m)%nat) by (subst m; cbn; lia).
        clear Hm. destruct m as [|c' m']; [cbn in L; lia|].
        cbn [app] in S. injection S as -> ->.
        cbn [length app]. f_equal.
        replace (S (length m') - 1)%nat with (length m') by lia.
        now rewrite skipn_app, skipn_all, Nat.sub_diag.
      * rewrite IH. cbn [rev skipn]. now rewrite <- app_assoc.
    + rewrite IH. reflexivity.
Qed.

Lemma split_bold_plain (a : str) :
  Forall (fun c => not_star c = true) a ->
  forall cur rest : str,
    ExportUtils.split_bold 0 cur (a ++ rest)
    = ExportUtils.split_bold 0 (rev a ++ cur) rest.
Proof.
  induction 1 as [|c a Hc _ IH]; intros cur rest; [reflexivity|].
  cbn [app ExportUtils.split_bold].
  rewrite match_bold_other
    by (unfold not_star in Hc; apply negb_true_iff in Hc;
        now apply N.eqb_neq).
  rewrite IH. cbn [rev]. now rewrite <- app_assoc.
Qed.

Lemma split_bold_skip (x : str) :
  forall cur y : str,
    ExportUtils.split_bold (length x) cur (x ++ y)
    = ExportUtils.split_bold 0 cur y.
Proof.
  induction x as [|c x IH]; intros cur y; [reflexivity|].
  cbn [length app ExportUtils.split_bold]. apply IH.
Qed.

Lemma inner_keeps_text (part : str) :
  startswith (u "**") part = true ->
  ExportUtils.endswith (u "**") part = true ->
  filter not_star (ExportUtils.inner part) = filter not_star part.
Proof.
  intros S E. change (u "**") with [42%N; 42%N] in *.
  destruct part as [|c1 part]; [discriminate|].
  destruct part as [|c2 r];
    [cbn [startswith] in S; rewrite andb_false_r in S; discriminate|].
  cbn [startswith] in S. apply andb_true_iff in S. destruct S as [S1 S2].
  apply andb_true_iff in S2. destruct S2 as [S2 _].
  apply N.eqb_eq in S1, S2. subst c1 c2.
  unfold ExportUtils.endswith in E. cbn [rev] in E.
  rewrite <- (rev_involutive r). revert E. unfold ExportUtils.inner.
  destruct (rev r) as [|y1 [|y2 q]]; cbn [app startswith]; intros E.
  - reflexivity.
  - apply andb_true_iff in E. destruct E as [E _].
    apply N.eqb_eq in E. subst y1. reflexivity.
  - apply andb_true_iff in E. destruct E as [E1 E2].
    apply andb_true_iff in E2. destruct E2 as [E2 _].
    apply N.eqb_eq in E1, E2. subst y1 y2.
    cbn [rev skipn length]. rewrite <- !app_assoc. cbn [app].
    rewrite length_app. cbn [length].
    replace (S (S (length (rev q) + 2)) - 4)%nat with (length (rev q)) by lia.
    rewrite firstn_app, firstn_all, Nat.sub_diag. cbn [firstn].
    rewrite app_nil_r.
    change (filter not_star (rev q)
            = filter not_star ([42%N; 42%N] ++ rev q ++ [42%N; 42%N])).
    rewrite !filter_app.
    change (filter not_star [42%N; 42%N]) with (@nil N).
    now rewrite app_nil_r.
Qed.

(** X23.  [_add_formatted_text] loses and moves no character other
    than a star: the texts of the runs it adds, one after the other
    and without the stars, are the text without its stars.  A text
    with no star in it becomes one run that is not bold. *)
Theorem formatted_runs_keep_text (text : str) :
  filter not_star
         (concat (map ExportUtils.run_text (ExportUtils.formatted_runs text)))
  = filter not_star text
  /\ (Forall (fun c => not_star c = true) text ->
      ExportUtils.formatted_runs text = [ExportUtils.plain text]).
Proof.
  split.
  - unfold ExportUtils.formatted_runs.
    rewrite <- (split_bold_concat text 0 []) at 2. cbn [rev app skipn].
    generalize (ExportUtils.split_bold 0 [] text). intros parts.
    induction parts as [|part parts IH]; [reflexivity|].
    cbn [map concat]. rewrite !filter_app, IH. f_equal.
    destruct (startswith (u "**") part) eqn:S; [|reflexivity].
    destruct (ExportUtils.endswith (u "**") part) eqn:E; [|reflexivity].
    cbn [andb ExportUtils.bold ExportUtils.run_text].
    now apply inner_keeps_text.
  - intros F. unfold ExportUtils.formatted_runs.
    rewrite <- (app_nil_r text) at 1.
    rewrite (split_bold_plain text F [] []). cbn [ExportUtils.split_bold map].
    rewrite app_nil_r, rev_involutive.
    destruct F as [|c text Hc F]; [reflexivity|].
    unfold not_star in Hc. apply negb_true_iff in Hc.
    change (u "**") with [42%N; 42%N]. cbn [startswith].
    rewrite N.eqb_sym, Hc. reflexivity.
Qed.

(** X24.  Where the text has two stars, one or more characters other
    than a star and two stars again, after a start without any star,
    [_add_formatted_text] adds the start as a run that is not bold,
    the characters between the stars as a bold run, and goes on with
    what follows in the same way. *)
Theorem formatted_runs_bold (a b c : str) :
  Forall (fun x => not_star x = true) a ->
  b <> [] ->
  Forall (fun x => not_star x = true) b ->
  ExportUtils.formatted_runs (a ++ u "**" ++ b ++ u "**" ++ c)
  = ExportUtils.plain a :: ExportUtils.bold b :: ExportUtils.formatted_runs c.
Proof.
  intros Fa Hb Fb. unfold ExportUtils.formatted_runs.
  rewrite (split_bold_plain a Fa). rewrite app_nil_r.
  assert (M := match_bold_run b c Hb Fb).
  remember (u "**" ++ b ++ u "**" ++ c) as s eqn:Hs.
  destruct s as [|x t]; [destruct b; discriminate|].
  cbn [ExportUtils.split_bold]. rewrite M. rewrite rev_involutive.
  cbn [map]. f_equal.
  - destruct Fa as [|c0 a Hc0 Fa]; [reflexivity|].
    unfold not_star in Hc0. apply negb_true_iff in Hc0.
    change (u "**") with [42%N; 42%N]. cbn [startswith].
    rewrite N.eqb_sym, Hc0. reflexivity.
  - f_equal.
    + change (u "**") with [42%N; 42%N]. cbn [app startswith andb N.eqb Pos.eqb].
      unfold ExportUtils.endswith. cbn [rev]. rewrite !rev_app_distr.
      cbn [rev app startswith N.eqb Pos.eqb andb].
      unfold ExportUtils.bold, ExportUtils.inner. f_equal.
      cbn [skipn length]. rewrite length_app. cbn [length].
      replace (S (S (length b + 2)) - 4)%nat with (length b) by lia.
      now rewrite firstn_app, firstn_all, Nat.sub_diag, app_nil_r.
    + f_equal.
      change (u "**") with [42%N; 42%N] in Hs. cbn [app] in Hs.
      injection Hs as -> ->.
      change (u "**") with [42%N; 42%N].
      rewrite <- (split_bold_skip (42%N :: b ++ [42%N; 42%N]) [] c).
      f_equal. cbn [app]. now rewrite <- app_assoc.
Qed.

Lemma formatted_runs_bold_witness :
  ExportUtils.formatted_runs (u "มติ: " ++ u "**" ++ u "อนุมัติ" ++ u "**" ++ u " งบ")
  = [ExportUtils.plain (u "มติ: "); ExportUtils.bold (u "อนุมัติ");
     ExportUtils.plain (u " งบ")].
Proof.
  rewrite (formatted_runs_bold (u "มติ: ") (u "อนุมัติ") (u " งบ")).
  - vm_compute. reflexivity.
  - apply Forall_forall. intros x I.
    assert (B : forallb not_star (u "มติ: ") = true) by (vm_compute; reflexivity).
    rewrite forallb_forall in B. now apply B.
  - vm_compute. discriminate.
  - apply Forall_forall. intros x I.
    assert (B : forallb not_star (u "อนุมัติ") = true) by (vm_compute; reflexivity).
    rewrite forallb_forall in B. now apply B.
Defined.

(* ----------------------------------------------------------------- *)
(** *** The participants of the summary *)





(* ----------------------------------------------------------------- *)
(** *** The export of what the pipeline returns *)







Lemma combine_raises (segs : list segment) :
  forall (st : ExportUtils.combining) (e : exn),
    ExportUtils.combine None segs st = Raise e -> e = ValueError.
Proof.
  induction segs as [|seg rest IH]; intros st e H; [discriminate|].
  cbn [ExportUtils.combine] in H. unfold ExportUtils.combine_step in H.
  rewrite (label_default None seg (or_introl eq_refl)) in H.
  destruct (format_speaker (seg_speaker seg)) as [speaker|e'] eqn:F;
    cbn [bind] in H.
  - destruct (match ExportUtils.current_speaker st with
              | Some current => str_eqb speaker current
              | None => false
              end); cbn [bind] in H; apply (IH _ _ H).
  - injection H as <-. now apply format_speaker_raises in F.
Qed.

